(** * Verification of the service-worker manifest generator

    Shallow embedding of [esm2020/config/src/generator.mjs] (the manifest
    compiler of the Angular service worker) and proofs of its specified
    properties.

    Conventions of the embedding:
    - JavaScript strings are [string]s, compared code unit by code unit;
    - arrays are [list]s, [Set<string>] is a [gset string];
    - a plain object used as a dictionary and a [Map] are association
      lists in insertion order, because the order of their keys is
      observable;
    - a thrown [Error] is the [Err] case of [result], and the object that
      [process] hands to [processAssetGroups] to be filled in is threaded
      through explicitly;
    - [await] on the collaborators [fs.list] and [fs.hash] is the value they
      resolve to. *)

From Stdlib Require Import ZArith String Ascii.
From stdpp Require Import base list gmap sets strings sorting.

Set Default Proof Using "Type".
Local Open Scope Z_scope.

(** ** JavaScript string primitives used by the generator *)

Module JsString.

(** [s.startsWith(p)] *)
Fixpoint startsWith (s p : string) {struct p} : bool :=
  match p, s with
  | EmptyString, _ => true
  | String _ _, EmptyString => false
  | String c p', String d s' => if Ascii.eqb c d then startsWith s' p' else false
  end.

(** [s.endsWith(p)] *)
Fixpoint endsWith (s p : string) : bool :=
  if String.eqb s p then true
  else match s with
       | EmptyString => false
       | String _ s' => endsWith s' p
       end.

(** [s.substr(start)] for a non-negative [start]: the code units from
    index [start] to the end. *)
Fixpoint substr (s : string) (start : nat) {struct start} : string :=
  match start, s with
  | O, _ => s
  | S _, EmptyString => EmptyString
  | S n, String _ s' => substr s' n
  end.

Fixpoint indexOf_from (s p : string) (i : Z) : Z :=
  if startsWith s p then i
  else match s with
       | EmptyString => -1
       | String _ s' => indexOf_from s' p (i + 1)
       end.

(** [s.indexOf(p)]: the index of the first occurrence, [-1] if none. *)
Definition indexOf (s p : string) : Z := indexOf_from s p 0.

(** [s.replace(/^\.(?=\/)/, '')]: a ["."] at the very start is removed
    when the next code unit is ["/"]; the ["/"] is only looked at, it
    stays. *)
Definition replace_leading_dot (s : string) : string :=
  match s with
  | String "." (String "/" _ as rest) => rest
  | _ => s
  end.

End JsString.

Import JsString.

(** ** [joinUrls] *)

Definition joinUrls (a b : string) : string :=
  if endsWith a "/" && startsWith b "/" then a +:+ substr b 1
  else if negb (endsWith a "/") && negb (startsWith b "/") then a +:+ "/" +:+ b
  else a +:+ b.

(** ** Errors and plain objects *)

(** The outcome of a call that may throw: its value, or the message of the
    [Error] it threw. *)
Inductive result (A : Type) : Type :=
  | Ok (value : A)
  | Err (message : string).
Arguments Ok {A} value.
Arguments Err {A} message.

Definition bind {A B} (r : result A) (k : A → result B) : result B :=
  match r with
  | Ok a => k a
  | Err e => Err e
  end.

Notation "x ←? r ; k" := (bind r (λ x, k))
  (at level 20, r at level 100, k at level 200, only parsing).

(** [xs.map(f)] where [f] may throw: the first failure, in array order, is
    the failure of the whole. *)
Fixpoint mapM {A B} (f : A → result B) (xs : list A) : result (list B) :=
  match xs with
  | [] => Ok []
  | x :: xs' => y ←? f x; ys ←? mapM f xs'; Ok (y :: ys)
  end.

(** [Array.prototype.reduce] with an initial value. *)
Fixpoint reduce {A B} (callback : B → A → B) (initialValue : B) (xs : list A) : B :=
  match xs with
  | [] => initialValue
  | x :: xs' => reduce callback (callback initialValue x) xs'
  end.

(** [Array.prototype.sort] without a comparator on an array of strings:
    ascending by code units. *)
Definition sort (xs : list string) : list string := merge_sort String.le xs.

(** A plain object used as a dictionary from string keys: the own
    properties in insertion order. (The generator only ever uses keys made
    by [joinUrls], which contain a ["/"], so none is an array index and
    insertion order is the enumeration order.) *)
Module JsObject.

Definition t (V : Type) : Type := list (string * V).

Definition empty {V} : t V := [].

(** [obj[key]] *)
Fixpoint get {V} (obj : t V) (key : string) : option V :=
  match obj with
  | [] => None
  | (k, v) :: obj' => if decide (k = key) then Some v else get obj' key
  end.

(** [obj[key] = value]: an existing property keeps its place and takes
    the new value, a new property goes last. *)
Fixpoint set {V} (obj : t V) (key : string) (value : V) : t V :=
  match obj with
  | [] => [(key, value)]
  | (k, v) :: obj' =>
      if decide (k = key) then (k, value) :: obj' else (k, v) :: set obj' key value
  end.

(** [Object.keys(obj)] *)
Definition keys {V} (obj : t V) : list string := obj.*1.


(** [entries.forEach(([key, value]) => obj[key] = value)]: the writes one
    after the other. *)
Definition setAll {V} (obj : t V) (entries : list (string * V)) : t V :=
  foldl (λ table '(key, value), set table key value) obj entries.

End JsObject.

(** ** The configuration ([in.ts]) *)

Inductive InstallMode := prefetch | lazy.
Inductive Strategy := freshness | performance.

(** [appData] is opaque to the generator; it stands for its JSON text. *)
Definition AppData := string.

Module Cfg.

Record CacheQueryOptions := { ignoreSearch : option bool }.

(** [versionedFiles] is the retired option; like [files] it held an array
    of globs, and an array is truthy whatever it holds. *)
Record Resources := {
  files : option (list string);
  versionedFiles : option (list string);
  urls : option (list string);
}.

Record AssetGroup := {
  name : string;
  installMode : option InstallMode;
  updateMode : option InstallMode;
  resources : Resources;
  cacheQueryOptions : option CacheQueryOptions;
}.

Record CacheConfig := {
  maxSize : Z;
  maxAge : string;
  timeout : option string;
  strategy : option Strategy;
}.

Record DataGroup := {
  dg_name : string;
  dg_urls : list string;
  version : option Z;
  cacheConfig : CacheConfig;
  dg_cacheQueryOptions : option CacheQueryOptions;
}.

Record Config := {
  appData : option AppData;
  index : string;
  assetGroups : option (list AssetGroup);
  dataGroups : option (list DataGroup);
  navigationUrls : option (list string);
  navigationRequestStrategy : option Strategy;
}.

End Cfg.

(** ** The file snapshot ([filesystem.ts]) *)

Record Filesystem := {
  fs_list : list string;      (* what [list('/')] resolves to *)
  fs_hash : string → string;  (* what [hash(file)] resolves to *)
}.

(** ** The manifest *)

Record RegExp := { source : string }.

Record CompiledPattern := { positive : bool; regex : RegExp }.

Module Manifest.

Record CacheQueryOptions := { ignoreVary : bool; ignoreSearch : option bool }.

Record AssetGroup := {
  name : string;
  installMode : InstallMode;
  updateMode : InstallMode;
  cacheQueryOptions : CacheQueryOptions;
  urls : list string;
  patterns : list string;
}.

(** [timeout && parseDurationToMs(timeout)]: [undefined] and the empty
    string are falsy and are the value of the conjunction as they are. *)
Inductive TimeoutMs :=
  | TimeoutUndefined
  | TimeoutEmptyString
  | TimeoutMillis (ms : Z).

Record DataGroup := {
  dg_name : string;
  dg_patterns : list string;
  strategy : Strategy;
  maxSize : Z;
  maxAge : Z;
  timeoutMs : TimeoutMs;
  dg_cacheQueryOptions : CacheQueryOptions;
  version : Z;
}.

Record NavigationUrl := { nav_positive : bool; nav_regex : string }.

Record t := {
  configVersion : Z;
  timestamp : Z;
  appData : option AppData;
  index : string;
  assetGroups : list AssetGroup;
  dataGroups : list DataGroup;
  hashTable : JsObject.t string;
  navigationUrls : list NavigationUrl;
  navigationRequestStrategy : Strategy;
}.

End Manifest.


(** ** The generator ([generator.mjs]) *)

Section Generator.

(** What the generator imports and does not define: [globToRegex] of
    [glob.js] (its second argument is the literal-question-mark flag, [false]
    where the call leaves it out), [parseDurationToMs] of [duration.js],
    which may throw, and the host's regular expressions: [RegExp_test src s]
    is [new RegExp(src).test(s)]. The text of a compiled glob is taken to be
    a well-formed regular expression (section 4.1: any string is
    translatable), so that building the [RegExp] does not throw. *)
Variable globToRegex : string → bool → string.
Variable parseDurationToMs : string → result Z.
Variable RegExp_test : string → string → bool.

Definition new_RegExp (src : string) : RegExp := {| source := src |}.
Definition test (re : RegExp) (s : string) : bool := RegExp_test (source re) s.

Definition DEFAULT_NAVIGATION_URLS : list string :=
  [ "/**";
    "!/**/*.*";
    "!/**/*__*";
    "!/**/*__*/**" ].

Definition matches (file : string) (patterns : list CompiledPattern) : bool :=
  let res :=
    reduce (λ (isMatch : bool) (pattern : CompiledPattern),
              if positive pattern
              then isMatch || test (regex pattern) file
              else isMatch && negb (test (regex pattern) file))
           false patterns in
  res.

Definition globListToMatcher (globs : list string) : string → bool :=
  let patterns :=
    (λ pattern : string,
       if startsWith pattern "!"
       then {| positive := false;
               regex := new_RegExp ("^" +:+ globToRegex (substr pattern 1) false +:+ "$") |}
       else {| positive := true;
               regex := new_RegExp ("^" +:+ globToRegex pattern false +:+ "$") |}) <$> globs in
  λ file, matches file patterns.

Definition urlToRegex (url baseHref : string) (literalQuestionMark : bool) : string :=
  let url :=
    if negb (startsWith url "/") && (indexOf url "://" =? -1)
    then joinUrls (replace_leading_dot baseHref) url
    else url in
  globToRegex url literalQuestionMark.

Definition processNavigationUrls (baseHref : string) (urls : option (list string))
  : list Manifest.NavigationUrl :=
  let urls := default DEFAULT_NAVIGATION_URLS urls in
  (λ url : string,
     let positive := negb (startsWith url "!") in
     let url := if positive then url else substr url 1 in
     {| Manifest.nav_positive := positive;
        Manifest.nav_regex := "^" +:+ urlToRegex url baseHref false +:+ "$" |}) <$> urls.

Definition withOrderedKeys {V} (unorderedObj : JsObject.t V) : JsObject.t V :=
  foldl (λ orderedObj key,
           match JsObject.get unorderedObj key with
           | Some value => JsObject.set orderedObj key value
           | None => orderedObj (* not reached: [key] is one of the object's keys *)
           end)
        JsObject.empty (sort (JsObject.keys unorderedObj)).

Definition buildCacheQueryOptions (inOptions : option Cfg.CacheQueryOptions)
  : Manifest.CacheQueryOptions :=
  {| Manifest.ignoreVary := true;
     Manifest.ignoreSearch := inOptions ≫= Cfg.ignoreSearch |}.

(** The message of the error thrown for a group that still uses
    [versionedFiles]. *)
Definition versionedFiles_error (group : Cfg.AssetGroup) : string :=
  "Asset-group '" +:+ Cfg.name group +:+
  "' in 'ngsw-config.json' uses the 'versionedFiles' option, " +:+
  "which is no longer supported. Use 'files' instead.".

(** The [Map] from asset group to its files. Its keys are the group objects
    themselves; the groups of a configuration document are distinct objects,
    so [set] always adds a new entry at the end. *)
Definition FilesPerGroup : Type := list (Cfg.AssetGroup * list string).

(** The matcher [processAssetGroups] builds for a group:
    [globListToMatcher(group.resources.files || [])]. *)
Definition fileMatcherOf (group : Cfg.AssetGroup) : string → bool :=
  globListToMatcher (default [] (Cfg.files (Cfg.resources group))).

(** The body of [for (const group of (config.assetGroups || []))] in
    [processAssetGroups], iterated over the groups that remain. *)
Fixpoint assignFiles (allFiles : list string) (groups : list Cfg.AssetGroup)
    (seenMap : gset string) (filesPerGroup : FilesPerGroup) : result FilesPerGroup :=
  match groups with
  | [] => Ok filesPerGroup
  | group :: groups' =>
      if Cfg.versionedFiles (Cfg.resources group) is Some _
      then Err (versionedFiles_error group)
      else
        let fileMatcher := fileMatcherOf group in
        let matchedFiles :=
          sort (filter (λ file, file ∉ seenMap)
                       (filter (λ file, Is_true (fileMatcher file)) allFiles)) in
        let seenMap := foldl (λ seen file, seen ∪ {[ file ]}) seenMap matchedFiles in
        assignFiles allFiles groups' seenMap (filesPerGroup ++ [(group, matchedFiles)])
  end.

Definition emitAssetGroup (baseHref : string) (entry : Cfg.AssetGroup * list string)
  : Manifest.AssetGroup :=
  let '(group, matchedFiles) := entry in
  {| Manifest.name := Cfg.name group;
     Manifest.installMode := default prefetch (Cfg.installMode group);
     Manifest.updateMode :=
       default (default prefetch (Cfg.installMode group)) (Cfg.updateMode group);
     Manifest.cacheQueryOptions := buildCacheQueryOptions (Cfg.cacheQueryOptions group);
     Manifest.urls := (λ url, joinUrls baseHref url) <$> matchedFiles;
     Manifest.patterns :=
       (λ url, urlToRegex url baseHref true) <$> default [] (Cfg.urls (Cfg.resources group)) |}.

(** [processAssetGroups] fills in the object it is given; the object as it
    is when the call returns or throws is the second component. *)
Definition processAssetGroups (fs : Filesystem) (baseHref : string) (config : Cfg.Config)
    (hashTable : JsObject.t string) : result (list Manifest.AssetGroup) * JsObject.t string :=
  let allFiles := fs_list fs in
  let seenMap : gset string := ∅ in
  match assignFiles allFiles (default [] (Cfg.assetGroups config)) seenMap [] with
  | Err e => (Err e, hashTable)
  | Ok filesPerGroup =>
      let allMatchedFiles := sort (mjoin (filesPerGroup.*2)) in
      let allMatchedHashes := (λ file, fs_hash fs file) <$> allMatchedFiles in
      (* [forEach((file, idx) => ...)] pairs each file with the hash at its index *)
      let hashTable :=
        JsObject.setAll hashTable
          ((λ '(file, hash), (joinUrls baseHref file, hash))
             <$> zip allMatchedFiles allMatchedHashes) in
      (Ok (emitAssetGroup baseHref <$> filesPerGroup), hashTable)
  end.

Definition processDataGroup (baseHref : string) (group : Cfg.DataGroup)
  : result Manifest.DataGroup :=
  let cacheConfig := Cfg.cacheConfig group in
  maxAge ←? parseDurationToMs (Cfg.maxAge cacheConfig);
  timeoutMs ←?
    match Cfg.timeout cacheConfig with
    | None => Ok Manifest.TimeoutUndefined
    | Some EmptyString => Ok Manifest.TimeoutEmptyString
    | Some timeout => ms ←? parseDurationToMs timeout; Ok (Manifest.TimeoutMillis ms)
    end;
  Ok {| Manifest.dg_name := Cfg.dg_name group;
        Manifest.dg_patterns := (λ url, urlToRegex url baseHref true) <$> Cfg.dg_urls group;
        Manifest.strategy := default performance (Cfg.strategy cacheConfig);
        Manifest.maxSize := Cfg.maxSize cacheConfig;
        Manifest.maxAge := maxAge;
        Manifest.timeoutMs := timeoutMs;
        Manifest.dg_cacheQueryOptions := buildCacheQueryOptions (Cfg.dg_cacheQueryOptions group);
        Manifest.version := default 1 (Cfg.version group) |}.

Definition processDataGroups (baseHref : string) (config : Cfg.Config)
  : result (list Manifest.DataGroup) :=
  mapM (processDataGroup baseHref) (default [] (Cfg.dataGroups config)).

(** [process]; [now] is what [Date.now()] answers. The first component of
    [process_run] is the outcome, the second the object
    [unorderedHashTable] as the call leaves it. *)
Definition process_run (fs : Filesystem) (baseHref : string) (config : Cfg.Config) (now : Z)
  : result Manifest.t * JsObject.t string :=
  let unorderedHashTable : JsObject.t string := JsObject.empty in
  let '(assetGroups, unorderedHashTable) :=
    processAssetGroups fs baseHref config unorderedHashTable in
  (assetGroups ←? assetGroups;
   dataGroups ←? processDataGroups baseHref config;
   Ok {| Manifest.configVersion := 1;
         Manifest.timestamp := now;
         Manifest.appData := Cfg.appData config;
         Manifest.index := joinUrls baseHref (Cfg.index config);
         Manifest.assetGroups := assetGroups;
         Manifest.dataGroups := dataGroups;
         Manifest.hashTable := withOrderedKeys unorderedHashTable;
         Manifest.navigationUrls := processNavigationUrls baseHref (Cfg.navigationUrls config);
         Manifest.navigationRequestStrategy :=
           default performance (Cfg.navigationRequestStrategy config) |},
   unorderedHashTable).

Definition process (fs : Filesystem) (baseHref : string) (config : Cfg.Config) (now : Z)
  : result Manifest.t :=
  (process_run fs baseHref config now).1.

End Generator.

(** ** The glob compiler and the host's regular expressions *)

Module GlobModel.

(** The regular expressions the compiled globs are made of: a sequence of
    anchors, single-character atoms and starred atoms. *)
Inductive atom :=
  | AChar (c : ascii)            (* the character itself, written plain or after a backslash *)
  | ANotIn (cs : list ascii)     (* [[^...]]: any character not listed *)
  | ADot.                        (* [.]: any character but a line break *)

Inductive node :=
  | NBegin                       (* [^] *)
  | NEnd                         (* [$] *)
  | NAtom (a : atom)
  | NStar (a : atom).            (* the atom followed by [*] *)

Definition accepts (a : atom) (c : ascii) : bool :=
  match a with
  | AChar d => Ascii.eqb c d
  | ANotIn cs => negb (existsb (Ascii.eqb c) cs)
  | ADot => negb (Ascii.eqb c "010" || Ascii.eqb c "013")
  end.

(** The members of a negated class, up to its closing bracket. *)
Fixpoint parse_class (s : string) (members : list ascii) : option (list ascii * string) :=
  match s with
  | EmptyString => None
  | String "]" rest => Some (reverse members, rest)
  | String "\" (String c rest) => parse_class rest (c :: members)
  | String c rest => parse_class rest (c :: members)
  end.

Definition parse_atom (s : string) : option (atom * string) :=
  match s with
  | String "\" (String c rest) => Some (AChar c, rest)
  | String "[" (String "^" rest) =>
      '(cs, rest') ← parse_class rest []; Some (ANotIn cs, rest')
  | String "." rest => Some (ADot, rest)
  | String c rest =>
      if existsb (Ascii.eqb c) ["\"; "["; "]"; "("; ")"; "{"; "}"; "*"; "+"; "?"; "|"]%char
      then None
      else Some (AChar c, rest)
  | EmptyString => None
  end.

(** Reading a source text into nodes. [fuel] bounds the number of nodes;
    the length of the text is enough. Syntax outside the fragment is not
    read ([None]). *)
Fixpoint parse_nodes (fuel : nat) (s : string) : option (list node) :=
  match fuel with
  | O => if s is EmptyString then Some [] else None
  | S fuel' =>
      match s with
      | EmptyString => Some []
      | String "^" rest => ns ← parse_nodes fuel' rest; Some (NBegin :: ns)
      | String "$" rest => ns ← parse_nodes fuel' rest; Some (NEnd :: ns)
      | _ =>
          '(a, rest) ← parse_atom s;
          match rest with
          | String "*" rest' => ns ← parse_nodes fuel' rest'; Some (NStar a :: ns)
          | _ => ns ← parse_nodes fuel' rest; Some (NAtom a :: ns)
          end
      end
  end.

(** Does a prefix of [s] match the nodes? [at_start] tells whether [s]
    begins where the whole input begins. *)
Fixpoint match_here (ns : list node) (at_start : bool) (s : string) : bool :=
  match ns with
  | [] => true
  | NBegin :: ns' => at_start && match_here ns' at_start s
  | NEnd :: ns' => (if s is EmptyString then true else false) && match_here ns' at_start s
  | NAtom a :: ns' =>
      match s with
      | String c s' => accepts a c && match_here ns' false s'
      | EmptyString => false
      end
  | NStar a :: ns' =>
      (fix star (at_start : bool) (s : string) : bool :=
         match_here ns' at_start s ||
         match s with
         | String c s' => accepts a c && star false s'
         | EmptyString => false
         end) at_start s
  end.

(** Does the pattern match somewhere in [s]? *)
Fixpoint search (ns : list node) (at_start : bool) (s : string) : bool :=
  match_here ns at_start s ||
  match s with
  | String _ s' => search ns false s'
  | EmptyString => false
  end.

(** [new RegExp(src).test(s)] for source texts of the fragment above; a
    source text outside it matches nothing here. *)
Definition RegExp_test (src s : string) : bool :=
  match parse_nodes (String.length src) src with
  | Some ns => search ns true s
  | None => false
  end.

(** Characters that stand for themselves in a glob and need a backslash
    in a regular expression. *)
Definition is_special (c : ascii) : bool :=
  existsb (Ascii.eqb c)
    ["\"; "^"; "$"; "."; "|"; "?"; "*"; "+"; "("; ")"; "["; "]"; "{"; "}"]%char.

(** Modelled from the spec: [globToRegex] of [glob.js], which is not part
    of the sources at hand. Section 4.1: [*] matches any run of characters
    within one path segment (no [/]); [**] matches any run of characters
    including [/]; [?] matches exactly one character, or is a literal [?]
    when the caller asks for literal-question-mark mode; any string is
    translatable, and every other character stands for itself. The result
    is the body of the regular expression; the callers add the anchors. *)
Fixpoint globToRegex (glob : string) (literalQuestionMark : bool) : string :=
  match glob with
  | EmptyString => ""
  | String "*" (String "*" rest) => "[^]*" +:+ globToRegex rest literalQuestionMark
  | String "*" rest => "[^/]*" +:+ globToRegex rest literalQuestionMark
  | String "?" rest =>
      (if literalQuestionMark then "\?" else "[^]") +:+ globToRegex rest literalQuestionMark
  | String c rest =>
      (if is_special c then String "\" (String c "") else String c "")
      +:+ globToRegex rest literalQuestionMark
  end.

(** Modelled from the spec: the check of a URL against the allow/deny list
    [navigationUrls], which is done by the consumer of the manifest and is
    not part of the sources at hand. Section 3: a URL matches a pattern
    list by the reduction of section 4.1, that is by [matches] on the
    patterns with their regular expressions built from the source texts. *)
Definition navigationAllowed (navigationUrls : list Manifest.NavigationUrl) (url : string)
  : bool :=
  matches RegExp_test url
    ((λ entry, {| positive := Manifest.nav_positive entry;
                  regex := new_RegExp (Manifest.nav_regex entry) |}) <$> navigationUrls).

(** Modelled from the spec: the same check read as a plain allow/deny
    list: some positive entry matches and no negative entry does. *)
Definition navigationAllowed_plain (navigationUrls : list Manifest.NavigationUrl)
    (url : string) : bool :=
  existsb (λ entry, Manifest.nav_positive entry && RegExp_test (Manifest.nav_regex entry) url)
          navigationUrls
  && forallb (λ entry, Manifest.nav_positive entry
                       || negb (RegExp_test (Manifest.nav_regex entry) url))
             navigationUrls.

End GlobModel.

(** The object [processAssetGroups] has filled in when the matched files
    are [files], starting from the empty object [process] hands it, and the
    table [process] makes of it. *)
Definition filledHashTable (baseHref : string) (hash : string → string)
    (files : list string) : JsObject.t string :=
  JsObject.setAll JsObject.empty ((λ file, (joinUrls baseHref file, hash file)) <$> files).

Definition orderedHashTable (baseHref : string) (hash : string → string)
    (files : list string) : JsObject.t string :=
  withOrderedKeys (filledHashTable baseHref hash files).

(** ** The specification's wording, for comparison with the code *)

Module Spec.

(** Section 4.1, the list matching rule: a positive pattern makes the
    result [result OR test], a negative one [result AND NOT test]. *)
Definition fold_step (candidate_passes : CompiledPattern → bool)
    (result : bool) (pattern : CompiledPattern) : bool :=
  if positive pattern
  then orb result (candidate_passes pattern)
  else andb result (negb (candidate_passes pattern)).

(** Section 4.1: fold left over the compiled pattern list starting from
    [false]. *)
Definition fold_matches (RegExp_test : string → string → bool)
    (candidate : string) (patterns : list CompiledPattern) : bool :=
  fold_left (fold_step (λ pattern, test RegExp_test (regex pattern) candidate)) patterns false.

(** Section 4.2: [base] ends with [/]; [relative] starts with [/]. *)
Definition ends_with_slash (base : string) : Prop := ∃ front, base = front +:+ "/".
Definition starts_with_slash (relative : string) : Prop := ∃ rest, relative = "/" +:+ rest.

(** [p] occurs somewhere in [s]. *)
Definition contains (s p : string) : Prop := ∃ before after, s = before +:+ p +:+ after.

(** Section 4.2 as worded: a single leading [./] is stripped from the
    base. *)
Definition strip_dot_slash (base : string) : string :=
  match base with
  | String "." (String "/" rest) => rest
  | _ => base
  end.

(** Section 4.2 as worded: a URL that is not absolute is joined with the
    base stripped of a leading [./], and the result goes to the glob
    compiler. *)
Definition urlToRegex_worded (globToRegex : string → bool → string)
    (url base : string) (literalQuestionMark : bool) : string :=
  if negb (startsWith url "/") && negb (bool_decide (0 ≤ indexOf url "://"))
  then globToRegex (joinUrls (strip_dot_slash base) url) literalQuestionMark
  else globToRegex url literalQuestionMark.

(** Two manifests that differ at most in [timestamp]. *)
Definition same_except_timestamp (m1 m2 : Manifest.t) : Prop :=
  Manifest.configVersion m1 = Manifest.configVersion m2 ∧
  Manifest.appData m1 = Manifest.appData m2 ∧
  Manifest.index m1 = Manifest.index m2 ∧
  Manifest.assetGroups m1 = Manifest.assetGroups m2 ∧
  Manifest.dataGroups m1 = Manifest.dataGroups m2 ∧
  Manifest.hashTable m1 = Manifest.hashTable m2 ∧
  Manifest.navigationUrls m1 = Manifest.navigationUrls m2 ∧
  Manifest.navigationRequestStrategy m1 = Manifest.navigationRequestStrategy m2.

(** Two invocations with the same outcome: the same failure, or manifests
    that differ at most in [timestamp]. *)
Definition same_outcome (r1 r2 : result Manifest.t) : Prop :=
  match r1, r2 with
  | Ok m1, Ok m2 => same_except_timestamp m1 m2
  | Err e1, Err e2 => e1 = e2
  | _, _ => False
  end.

(** Section 8, the dedup invariant as worded, for any two groups of which
    the first is declared before the second: a file that the globs of both
    match appears in the urls of the first and not in the urls of the
    second. *)
Definition dedup_between_any_two_groups (globToRegex : string → bool → string)
    (parseDurationToMs : string → result Z) (RegExp_test : string → string → bool) : Prop :=
  ∀ fs baseHref config now m (i j : nat) G1 G2 out1 out2 f,
    process globToRegex parseDurationToMs RegExp_test fs baseHref config now = Ok m →
    default [] (Cfg.assetGroups config) !! i = Some G1 →
    default [] (Cfg.assetGroups config) !! j = Some G2 →
    (i < j)%nat →
    Manifest.assetGroups m !! i = Some out1 →
    Manifest.assetGroups m !! j = Some out2 →
    f ∈ fs_list fs →
    fileMatcherOf globToRegex RegExp_test G1 f = true →
    fileMatcherOf globToRegex RegExp_test G2 f = true →
    joinUrls baseHref f ∈ Manifest.urls out1 ∧ joinUrls baseHref f ∉ Manifest.urls out2.

(** Section 4.2 as worded, as a statement about the code: [urlToRegex]
    hands the glob compiler what [urlToRegex_worded] does. *)
Definition urlToRegex_strips_dot_slash (globToRegex : string → bool → string) : Prop :=
  ∀ url base literalQuestionMark,
    urlToRegex globToRegex url base literalQuestionMark
    = urlToRegex_worded globToRegex url base literalQuestionMark.

End Spec.

(** ** Sample inputs *)

Module Sample.

Definition assetGroup (name : string) (files : list string) : Cfg.AssetGroup :=
  {| Cfg.name := name;
     Cfg.installMode := None;
     Cfg.updateMode := None;
     Cfg.resources := {| Cfg.files := Some files; Cfg.versionedFiles := None; Cfg.urls := None |};
     Cfg.cacheQueryOptions := None |}.


Definition config (assetGroups : list Cfg.AssetGroup) : Cfg.Config :=
  {| Cfg.appData := None;
     Cfg.index := "/index.html";
     Cfg.assetGroups := Some assetGroups;
     Cfg.dataGroups := None;
     Cfg.navigationUrls := None;
     Cfg.navigationRequestStrategy := None |}.

Definition snapshot (files : list string) : Filesystem :=
  {| fs_list := files; fs_hash := λ file, "sha1-of:" +:+ file |}.

(** The samples declare no data groups, so no duration is ever parsed in
    them; this stand-in for [parseDurationToMs] of [duration.js] reads
    nothing and always throws. *)
Definition parseDurationToMs (duration : string) : result Z :=
  Err ("Invalid duration: " +:+ duration).

(** [process] with the glob compiler and regular expressions of
    [GlobModel]. *)
Definition process : Filesystem → string → Cfg.Config → Z → result Manifest.t :=
  process GlobModel.globToRegex parseDurationToMs GlobModel.RegExp_test.

(** The end-to-end scenario of section 8. *)
Definition appConfig : Cfg.Config := config [assetGroup "app" ["/*.js"]].
Definition appFiles : list string := ["/main.js"; "/vendor.js"; "/readme.txt"].

(** Three groups whose globs all match every file. *)
Definition threeGroups : Cfg.Config :=
  config [assetGroup "first" ["/**"]; assetGroup "second" ["/**"]; assetGroup "third" ["/**"]].

End Sample.

(** ** Registration of the service worker ([module.ts]) *)

Module SwModule.

(** [s.split(sep)] for a one-character separator: the pieces between the
    separators, at least one. *)
Fixpoint split (s : string) (sep : ascii) : list string :=
  match s with
  | EmptyString => [EmptyString]
  | String c s' =>
      if Ascii.eqb c sep then EmptyString :: split s' sep
      else match split s' sep with
           | piece :: pieces => String c piece :: pieces
           | [] => [String c EmptyString]
           end
  end.

(** Where the initializer runs: [isPlatformBrowser(platformId)] and, in a
    browser, ['serviceWorker' in navigator]. *)
Inductive Platform :=
  | Server
  | Browser (serviceWorkerInNavigator : bool).

(** [options.registrationStrategy]: an Observable factory or a string. *)
Inductive RegistrationStrategy :=
  | ObservableFactory
  | Named (strategy : string).

Record SwRegistrationOptions := {
  enabled : option bool;
  scope : option string;
  registrationStrategy : option RegistrationStrategy;
}.

Section Initializer.

(** JavaScript numbers, as far as [+args[0] || 0] needs them: [ToNumber] is
    the unary plus on a string, [falsy] holds of [0], [-0] and [NaN], and
    [zero] is the literal [0]. *)
Variable Number : Type.
Variable ToNumber : string → Number.
Variable falsy : Number → bool.
Variable zero : Number.

(** The Observable that says when to register. *)
Inductive Trigger :=
  | Immediately                  (* [of(null)] *)
  | AfterDelay (ms : Number)     (* [of(null).pipe(delay(ms))] *)
  | WhenStable                   (* [appRef.isStable.pipe(filter(stable => stable))] *)
  | FromFactory.                 (* [options.registrationStrategy()] *)

(** What the initializer does to the world, in order. *)
Inductive Effect :=
  | AddControllerChangeListener
  | CallRegistrationStrategy
  | GetApplicationRef
  (* [readyToRegister$.pipe(take(1)).subscribe(() =>
       navigator.serviceWorker.register(script, {scope}))] *)
  | SubscribeOnce (readyToRegister : Trigger) (script : string) (scope : option string).

(** [options.enabled !== false] *)
Definition enabledIsNotFalse (options : SwRegistrationOptions) : bool :=
  match enabled options with
  | Some false => false
  | _ => true
  end.

(** The function [ngswAppInitializer] returns, run once: the effects it
    performed, and whether it returned or threw. *)
Definition initializer (platform : Platform) (script : string)
    (options : SwRegistrationOptions) : list Effect * result unit :=
  let proceed :=
    match platform with
    | Server => false
    | Browser serviceWorkerInNavigator => serviceWorkerInNavigator && enabledIsNotFalse options
    end in
  if negb proceed then ([], Ok ())
  else
    match registrationStrategy options with
    | Some ObservableFactory =>
        ([AddControllerChangeListener; CallRegistrationStrategy;
          SubscribeOnce FromFactory script (scope options)], Ok ())
    | named =>
        let text :=
          match named with
          | Some (Named EmptyString) | None => "registerWhenStable"
          | Some (Named text) => text
          | Some ObservableFactory => "registerWhenStable" (* not reached *)
          end in
        match split text ":" with
        | [] => ([AddControllerChangeListener], Ok ()) (* not reached: no split is empty *)
        | strategy :: args =>
            if String.eqb strategy "registerImmediately" then
              ([AddControllerChangeListener;
                SubscribeOnce Immediately script (scope options)], Ok ())
            else if String.eqb strategy "registerWithDelay" then
              let ms :=
                match args with
                | [] => zero (* [+undefined] is [NaN], which is falsy *)
                | arg :: _ => if falsy (ToNumber arg) then zero else ToNumber arg
                end in
              ([AddControllerChangeListener;
                SubscribeOnce (AfterDelay ms) script (scope options)], Ok ())
            else if String.eqb strategy "registerWhenStable" then
              ([AddControllerChangeListener; GetApplicationRef;
                SubscribeOnce WhenStable script (scope options)], Ok ())
            else
              ([AddControllerChangeListener],
               Err ("Unknown ServiceWorker registration strategy: " +:+ text))
        end
    end.

End Initializer.

(** [ngswCommChannelFactory]: is the channel given [navigator.serviceWorker]
    ([true]) or [undefined] ([false])? In a browser without service
    workers [navigator.serviceWorker] is itself [undefined]. *)
Definition ngswCommChannelFactory (opts : SwRegistrationOptions) (platform : Platform) : bool :=
  match platform with
  | Server => false
  | Browser serviceWorkerInNavigator =>
      if match enabled opts with Some false => false | _ => true end
      then serviceWorkerInNavigator
      else false
  end.

End SwModule.

(** * Properties *)

(** ** Strings *)

Section StringFacts.

Lemma append_cons (c : ascii) (s t : string) : String c s +:+ t = String c (s +:+ t).
Proof. reflexivity. Qed.

Lemma append_nil_l (s : string) : "" +:+ s = s.
Proof. reflexivity. Qed.

Lemma append_nil_r (s : string) : s +:+ "" = s.
Proof. induction s as [|c s IH]; [done|]. by rewrite append_cons, IH. Qed.

Lemma append_assoc (s1 s2 s3 : string) : (s1 +:+ s2) +:+ s3 = s1 +:+ s2 +:+ s3.
Proof. induction s1 as [|c s1 IH]; [done|]. by rewrite !append_cons, IH. Qed.

Lemma startsWith_iff (s p : string) :
  startsWith s p = true ↔ ∃ rest, s = p +:+ rest.
Proof.
  revert s. induction p as [|c p IH]; intros s; simpl.
  - split; [intros _; by exists s|done].
  - destruct s as [|d s].
    + split; [done|]. intros [rest Hrest]. discriminate.
    + destruct (Ascii.eqb_spec c d) as [->|Hne].
      * rewrite IH. split; intros [rest Hrest]; exists rest.
        -- by rewrite append_cons, <- Hrest.
        -- rewrite append_cons in Hrest. congruence.
      * split; [done|]. intros [rest Hrest]. rewrite append_cons in Hrest. congruence.
Qed.

Lemma endsWith_unfold (s p : string) :
  endsWith s p =
  if String.eqb s p then true
  else match s with
       | EmptyString => false
       | String _ s' => endsWith s' p
       end.
Proof. by destruct s. Qed.

Lemma endsWith_iff (s p : string) :
  endsWith s p = true ↔ ∃ front, s = front +:+ p.
Proof.
  induction s as [|c s IH]; rewrite endsWith_unfold.
  - destruct (String.eqb_spec "" p) as [<-|Hne].
    + split; [intros _; by exists ""|done].
    + split; [done|]. intros [[|d front] Hfront]; [|discriminate].
      rewrite append_nil_l in Hfront. congruence.
  - destruct (String.eqb_spec (String c s) p) as [<-|Hne].
    + split; [intros _; by exists ""|done].
    + rewrite IH. split.
      * intros [front ->]. by exists (String c front).
      * intros [[|d front] Hfront]; [rewrite append_nil_l in Hfront; congruence|].
        exists front. rewrite append_cons in Hfront. congruence.
Qed.

Lemma startsWith_slash (s : string) : startsWith s "/" = true ↔ Spec.starts_with_slash s.
Proof. apply startsWith_iff. Qed.

Lemma endsWith_slash (s : string) : endsWith s "/" = true ↔ Spec.ends_with_slash s.
Proof. apply endsWith_iff. Qed.

End StringFacts.

(** ** [joinUrls] *)

(** C6. The URL join contract: when [base] ends with ["/"] and [relative]
    starts with ["/"], one of the two slashes is dropped; when neither
    holds, a ["/"] is put between them; otherwise the two are concatenated
    as they are. The three joins of ["/base"] or ["/base/"] with ["x"] or
    ["/x"] named in the specification all give ["/base/x"]. *)
Theorem joinUrls_contract (base relative : string) :
  (∀ front rest, base = front +:+ "/" → relative = "/" +:+ rest →
     joinUrls base relative = front +:+ "/" +:+ rest) ∧
  (¬ Spec.ends_with_slash base → ¬ Spec.starts_with_slash relative →
     joinUrls base relative = base +:+ "/" +:+ relative) ∧
  (Spec.ends_with_slash base → ¬ Spec.starts_with_slash relative →
     joinUrls base relative = base +:+ relative) ∧
  (¬ Spec.ends_with_slash base → Spec.starts_with_slash relative →
     joinUrls base relative = base +:+ relative) ∧
  joinUrls "/base/" "/x" = "/base/x" ∧
  joinUrls "/base" "x" = "/base/x" ∧
  joinUrls "/base/" "x" = "/base/x".
Proof.
  unfold joinUrls. repeat split; try reflexivity.
  - intros front rest -> ->.
    assert (endsWith (front +:+ "/") "/" = true) as -> by (apply endsWith_iff; eauto).
    simpl. by rewrite append_nil_l, append_assoc.
  - intros Hb Hr.
    destruct (endsWith base "/") eqn:Eb; [by apply endsWith_slash in Eb|].
    destruct (startsWith relative "/") eqn:Er; [by apply startsWith_slash in Er|].
    done.
  - intros Hb Hr.
    destruct (startsWith relative "/") eqn:Er; [by apply startsWith_slash in Er|].
    apply endsWith_slash in Hb as Eb. by rewrite Eb.
  - intros Hb Hr.
    destruct (endsWith base "/") eqn:Eb; [by apply endsWith_slash in Eb|].
    apply startsWith_slash in Hr as Er. by rewrite Er.
Qed.

Lemma joinUrls_contract_witness :
  joinUrls "/app/" "/main.js" = "/app/main.js" ∧
  joinUrls "/app" "main.js" = "/app/main.js" ∧
  joinUrls "/app/" "main.js" = "/app/main.js" ∧
  joinUrls "/app" "/main.js" = "/app/main.js".
Proof.
  split; [|split; [|split]].
  - exact (proj1 (joinUrls_contract "/app/" "/main.js") "/app" "main.js" eq_refl eq_refl).
  - refine (proj1 (proj2 (joinUrls_contract "/app" "main.js")) _ _).
    + intros H. apply endsWith_slash in H. discriminate.
    + intros H. apply startsWith_slash in H. discriminate.
  - refine (proj1 (proj2 (proj2 (joinUrls_contract "/app/" "main.js"))) _ _).
    + by exists "/app".
    + intros H. apply startsWith_slash in H. discriminate.
  - refine (proj1 (proj2 (proj2 (proj2 (joinUrls_contract "/app" "/main.js")))) _ _).
    + intros H. apply endsWith_slash in H. discriminate.
    + by exists "main.js".
Defined.

(** ** Pattern lists *)

Section MatcherFacts.

Context (RegExp_test : string → string → bool).

Lemma reduce_fold_left {A B} (f : B → A → B) (init : B) (xs : list A) :
  reduce f init xs = fold_left f xs init.
Proof. revert init. induction xs as [|x xs IH]; intros init; simpl; [done|apply IH]. Qed.

Lemma reduce_snoc {A B} (f : B → A → B) (init : B) (xs : list A) (x : A) :
  reduce f init (xs ++ [x]) = f (reduce f init xs) x.
Proof. revert init. induction xs as [|y xs IH]; intros init; simpl; [done|apply IH]. Qed.

Lemma matches_nil (file : string) : matches RegExp_test file [] = false.
Proof. reflexivity. Qed.

Lemma matches_snoc (file : string) (patterns : list CompiledPattern) (p : CompiledPattern) :
  matches RegExp_test file (patterns ++ [p]) =
  if positive p
  then matches RegExp_test file patterns || test RegExp_test (regex p) file
  else matches RegExp_test file patterns && negb (test RegExp_test (regex p) file).
Proof. unfold matches. by rewrite reduce_snoc. Qed.

Lemma matches_no_positive (file : string) (patterns : list CompiledPattern) :
  (∀ p, p ∈ patterns → positive p = false) → matches RegExp_test file patterns = false.
Proof.
  induction patterns as [|p patterns IH] using rev_ind; intros Hneg; [done|].
  rewrite matches_snoc, (Hneg p), IH; [done| |].
  - intros q Hq. apply Hneg, elem_of_app. by left.
  - apply elem_of_app. right. by apply list_elem_of_singleton.
Qed.

End MatcherFacts.

(** C3. [matches] is the left fold of the specification: it starts from
    [false]; a positive pattern replaces the accumulator by (accumulator
    or test), a negative one by (accumulator and not test). A list without
    a positive pattern matches no candidate, and a negative pattern never
    turns a non-match into a match, so alone it matches nothing. *)
Theorem matches_left_fold (RegExp_test : string → string → bool)
    (candidate : string) (patterns : list CompiledPattern) :
  matches RegExp_test candidate patterns = Spec.fold_matches RegExp_test candidate patterns ∧
  matches RegExp_test candidate [] = false ∧
  (∀ p, matches RegExp_test candidate (patterns ++ [p]) =
        if positive p
        then matches RegExp_test candidate patterns || test RegExp_test (regex p) candidate
        else matches RegExp_test candidate patterns
             && negb (test RegExp_test (regex p) candidate)) ∧
  ((∀ p, p ∈ patterns → positive p = false) →
     matches RegExp_test candidate patterns = false) ∧
  (∀ p, positive p = false → matches RegExp_test candidate [p] = false) ∧
  (∀ p, positive p = false → matches RegExp_test candidate patterns = false →
        matches RegExp_test candidate (patterns ++ [p]) = false).
Proof.
  split; [|split; [|split; [|split; [|split]]]].
  - unfold matches, Spec.fold_matches. rewrite reduce_fold_left. reflexivity.
  - reflexivity.
  - apply matches_snoc.
  - apply matches_no_positive.
  - intros p Hp. unfold matches. simpl. by rewrite Hp.
  - intros p Hp Hfalse. by rewrite matches_snoc, Hp, Hfalse.
Qed.

Lemma matches_left_fold_witness :
  matches GlobModel.RegExp_test "/app/main.js"
    [ {| positive := false; regex := new_RegExp "^/[^]*$" |};
      {| positive := false; regex := new_RegExp "^/[^]*/[^/]*\.[^/]*$" |} ] = false ∧
  matches GlobModel.RegExp_test "/app/main.js"
    [ {| positive := false; regex := new_RegExp "^/[^]*$" |} ] = false.
Proof.
  split.
  - apply (proj1 (proj2 (proj2 (proj2 (matches_left_fold GlobModel.RegExp_test
                                         "/app/main.js" _))))).
    intros p Hp. repeat (apply elem_of_cons in Hp as [->|Hp]; [reflexivity|]).
    by apply elem_of_nil in Hp.
  - by apply (proj1 (proj2 (proj2 (proj2 (proj2 (matches_left_fold GlobModel.RegExp_test
                                                   "/app/main.js" [])))))).
Defined.

(** ** Sorting *)

Section SortFacts.

Lemma sort_Permutation (xs : list string) : sort xs ≡ₚ xs.
Proof. apply merge_sort_Permutation. Qed.

Lemma sort_elem_of (x : string) (xs : list string) : x ∈ sort xs ↔ x ∈ xs.
Proof. by rewrite sort_Permutation. Qed.

Lemma sort_sorted (xs : list string) : StronglySorted String.le (sort xs).
Proof. apply StronglySorted_merge_sort; apply _. Qed.

(** The sorted array depends on the elements only, not on their order. *)
Lemma sort_order_independent (xs ys : list string) : xs ≡ₚ ys → sort xs = sort ys.
Proof.
  intros Hperm. apply (StronglySorted_unique String.le); [apply sort_sorted..|].
  by rewrite !sort_Permutation.
Qed.

Lemma sort_NoDup (xs : list string) : NoDup xs → NoDup (sort xs).
Proof. by rewrite sort_Permutation. Qed.

Lemma le_ne_ltb (a b : string) : String.le a b → a ≠ b → String.ltb a b = true.
Proof.
  unfold String.le, String.leb, String.ltb. intros Hle Hne.
  destruct (String.compare a b) eqn:Hcmp; [|done..].
  by apply String.compare_eq_iff in Hcmp.
Qed.

Lemma sorted_NoDup_strict (xs : list string) :
  StronglySorted String.le xs → NoDup xs →
  StronglySorted (λ a b, String.ltb a b = true) xs.
Proof.
  induction 1 as [|x xs Hsorted IH Hall]; intros Hnodup; constructor.
  - apply IH. by apply NoDup_cons in Hnodup as [_ ?].
  - apply NoDup_cons in Hnodup as [Hx _].
    apply Forall_forall. intros y Hy. apply le_ne_ltb.
    + by apply (proj1 (Forall_forall _ _) Hall).
    + intros ->. done.
Qed.

End SortFacts.

(** ** Plain objects *)

Section JsObjectFacts.

Context {V : Type}.
Implicit Types (obj : JsObject.t V) (key : string) (value : V).

Lemma get_set obj key value key' :
  JsObject.get (JsObject.set obj key value) key' =
  if decide (key = key') then Some value else JsObject.get obj key'.
Proof.
  induction obj as [|[k v] obj IH]; simpl.
  - repeat case_decide; congruence.
  - repeat (case_decide; simpl); try congruence.
Qed.

Lemma get_Some_keys obj key value :
  JsObject.get obj key = Some value → key ∈ JsObject.keys obj.
Proof.
  unfold JsObject.keys. induction obj as [|[k v] obj IH]; simpl; [done|].
  case_decide as Hk; [intros _; subst; left|intros Hget; right; auto].
Qed.

Lemma keys_get_Some obj key :
  key ∈ JsObject.keys obj → is_Some (JsObject.get obj key).
Proof.
  unfold JsObject.keys. induction obj as [|[k v] obj IH]; simpl; [by intros ?%elem_of_nil|].
  intros Hin. case_decide as Hk; [by eexists|].
  apply IH. apply elem_of_cons in Hin as [?|?]; [congruence|done].
Qed.

Lemma keys_set obj key value :
  JsObject.keys (JsObject.set obj key value) =
  if decide (key ∈ JsObject.keys obj) then JsObject.keys obj else JsObject.keys obj ++ [key].
Proof.
  unfold JsObject.keys. induction obj as [|[k v] obj IH]; csimpl.
  - done.
  - destruct (decide (k = key)) as [->|Hne]; csimpl.
    + rewrite decide_True; [done|left].
    + rewrite IH. destruct (decide (key ∈ obj.*1)) as [Hin|Hnin].
      * rewrite decide_True; [done|by right].
      * rewrite decide_False; [done|].
        intros [?|?]%elem_of_cons; congruence.
Qed.

Lemma keys_set_NoDup obj key value :
  NoDup (JsObject.keys obj) → NoDup (JsObject.keys (JsObject.set obj key value)).
Proof.
  intros Hnodup. rewrite keys_set. case_decide as Hin; [done|].
  apply NoDup_app. split_and!; [done| |apply NoDup_singleton].
  intros k Hk Hk'. apply list_elem_of_singleton in Hk'. by subst k.
Qed.

Lemma setAll_snoc obj entries key value :
  JsObject.setAll obj (entries ++ [(key, value)]) = JsObject.set (JsObject.setAll obj entries) key value.
Proof. unfold JsObject.setAll. by rewrite foldl_app. Qed.

Lemma setAll_keys_NoDup obj entries :
  NoDup (JsObject.keys obj) → NoDup (JsObject.keys (JsObject.setAll obj entries)).
Proof.
  induction entries as [|[k v] entries IH] using rev_ind; [done|].
  intros Hnodup. rewrite setAll_snoc. by apply keys_set_NoDup, IH.
Qed.

Lemma setAll_keys obj entries key :
  key ∈ JsObject.keys (JsObject.setAll obj entries) ↔ key ∈ JsObject.keys obj ∨ key ∈ entries.*1.
Proof.
  induction entries as [|[k v] entries IH] using rev_ind.
  - simpl. rewrite elem_of_nil. tauto.
  - rewrite setAll_snoc, keys_set, fmap_app, elem_of_app. simpl.
    rewrite list_elem_of_singleton. case_decide as Hin.
    + rewrite IH. split; [tauto|]. intros [?|[?|Hk]]; [tauto..|]. subst key. by apply IH.
    + rewrite elem_of_app, list_elem_of_singleton, IH. tauto.
Qed.

(** When no key is written with two different values, every written
    property reads back as written. *)
Lemma setAll_get_written obj entries key value :
  (∀ k v v', (k, v) ∈ entries → (k, v') ∈ entries → v = v') →
  (key, value) ∈ entries →
  JsObject.get (JsObject.setAll obj entries) key = Some value.
Proof.
  induction entries as [|[k v] entries IH] using rev_ind; [by intros _ ?%elem_of_nil|].
  intros Hfun Hin. rewrite setAll_snoc, get_set.
  case_decide as Hk.
  - subst k. f_equal. apply (Hfun key); [|done].
    apply elem_of_app. right. by apply list_elem_of_singleton.
  - apply IH.
    + intros k' v1 v2 H1 H2. apply (Hfun k'); apply elem_of_app; by left.
    + apply elem_of_app in Hin as [?|Hin]; [done|].
      apply list_elem_of_singleton in Hin. congruence.
Qed.

Lemma setAll_get_inv obj entries key value :
  JsObject.get (JsObject.setAll obj entries) key = Some value →
  (key, value) ∈ entries ∨ JsObject.get obj key = Some value.
Proof.
  induction entries as [|[k v] entries IH] using rev_ind; [by right|].
  rewrite setAll_snoc, get_set. case_decide as Hk.
  - intros [= <-]. subst k. left. apply elem_of_app. right. by apply list_elem_of_singleton.
  - intros [?|?]%IH; [left|by right]. apply elem_of_app. by left.
Qed.

(** [withOrderedKeys] as a loop over the keys that remain. *)
Lemma withOrderedKeys_loop obj (acc : JsObject.t V) (ks : list string) :
  NoDup ks →
  (∀ k, k ∈ ks → (k ∉ JsObject.keys acc) ∧ (k ∈ JsObject.keys obj)) →
  let out := foldl (λ orderedObj key,
                      match JsObject.get obj key with
                      | Some value => JsObject.set orderedObj key value
                      | None => orderedObj
                      end) acc ks in
  JsObject.keys out = JsObject.keys acc ++ ks ∧
  ∀ k, JsObject.get out k = if decide (k ∈ ks) then JsObject.get obj k else JsObject.get acc k.
Proof.
  revert acc. induction ks as [|k0 ks IH]; intros acc Hnodup Hks; simpl.
  - split; [by rewrite app_nil_r|done].
  - apply NoDup_cons in Hnodup as [Hk0 Hnodup].
    destruct (Hks k0) as [Hfresh Hobj]; [left|].
    destruct (keys_get_Some obj k0 Hobj) as [v0 Hv0]. rewrite Hv0.
    destruct (IH (JsObject.set acc k0 v0) Hnodup) as [IHkeys IHget].
    { intros k Hk. destruct (Hks k) as [Hk1 Hk2]; [by right|]. split; [|done].
      rewrite keys_set, decide_False by done.
      intros [?|Heq%list_elem_of_singleton]%elem_of_app; [done|]. subst k. done. }
    split.
    + rewrite IHkeys, keys_set, decide_False by done. by rewrite <- app_assoc.
    + intros k. rewrite IHget, get_set.
      destruct (decide (k ∈ ks)) as [Hin|Hnin].
      * rewrite decide_True; [done|by right].
      * destruct (decide (k0 = k)) as [->|Hne].
        -- rewrite decide_True; [done|left].
        -- rewrite decide_False; [done|]. intros [?|?]%elem_of_cons; congruence.
Qed.

Lemma withOrderedKeys_keys obj :
  NoDup (JsObject.keys obj) →
  JsObject.keys (withOrderedKeys obj) = sort (JsObject.keys obj).
Proof.
  intros Hnodup. unfold withOrderedKeys.
  destruct (withOrderedKeys_loop obj JsObject.empty (sort (JsObject.keys obj))) as [Hkeys _].
  - by apply sort_NoDup.
  - intros k Hk. split; [apply not_elem_of_nil|by apply sort_elem_of].
  - exact Hkeys.
Qed.

Lemma withOrderedKeys_get obj key :
  NoDup (JsObject.keys obj) →
  JsObject.get (withOrderedKeys obj) key = JsObject.get obj key.
Proof.
  intros Hnodup. unfold withOrderedKeys.
  destruct (withOrderedKeys_loop obj JsObject.empty (sort (JsObject.keys obj))) as [_ Hget].
  - by apply sort_NoDup.
  - intros k Hk. split; [apply not_elem_of_nil|by apply sort_elem_of].
  - rewrite Hget. case_decide as Hin; [done|]. simpl.
    destruct (JsObject.get obj key) as [v|] eqn:Hv; [|done].
    apply get_Some_keys in Hv. by rewrite <- sort_elem_of in Hv.
Qed.

End JsObjectFacts.

(** ** The asset-group loop *)

Lemma seenMap_add_all (seenMap : gset string) (files : list string) (f : string) :
  f ∈ foldl (λ seen file, seen ∪ {[ file ]}) seenMap files ↔ f ∈ seenMap ∨ f ∈ files.
Proof.
  revert seenMap. induction files as [|x files IH]; intros seenMap; simpl.
  - rewrite elem_of_nil. tauto.
  - rewrite IH, elem_of_cons, elem_of_union, elem_of_singleton. tauto.
Qed.

Section GeneratorFacts.

Context (globToRegex : string → bool → string).
Context (RegExp_test : string → string → bool).

(** What the loop leaves in the [Map]: one entry per group, in order; the
    files of a group are the listed files its matcher accepts that were not
    seen before and that no earlier group of the loop accepts. *)
Lemma assignFiles_Ok allFiles groups seenMap filesPerGroup out :
  assignFiles globToRegex RegExp_test allFiles groups seenMap filesPerGroup = Ok out →
  ∃ lists : list (list string),
    out = filesPerGroup ++ zip groups lists ∧
    length lists = length groups ∧
    ∀ (i : nat) group files f,
      groups !! i = Some group → lists !! i = Some files →
      (f ∈ files ↔
       f ∈ allFiles ∧ fileMatcherOf globToRegex RegExp_test group f = true ∧ (f ∉ seenMap) ∧
       ∀ (k : nat) earlier, (k < i)%nat → groups !! k = Some earlier →
         fileMatcherOf globToRegex RegExp_test earlier f = false).
Proof.
  revert seenMap filesPerGroup.
  induction groups as [|g groups IH]; intros seenMap filesPerGroup Hrun; simpl in Hrun.
  - injection Hrun as <-. exists []. rewrite app_nil_r. split_and!; [done..|].
    intros i group files f Hg. by rewrite lookup_nil in Hg.
  - destruct (Cfg.versionedFiles (Cfg.resources g)); [discriminate|].
    set (matched := sort (filter (λ file, file ∉ seenMap)
                     (filter (λ file, Is_true (fileMatcherOf globToRegex RegExp_test g file))
                             allFiles))) in Hrun.
    assert (Hmatched : ∀ f, f ∈ matched ↔
              f ∈ allFiles ∧ fileMatcherOf globToRegex RegExp_test g f = true ∧ f ∉ seenMap).
    { intros f. unfold matched. rewrite sort_elem_of, !list_elem_of_filter, Is_true_true. tauto. }
    apply IH in Hrun as (lists & -> & Hlen & Hspec).
    exists (matched :: lists). split_and!.
    + by rewrite <- app_assoc.
    + simpl. by rewrite Hlen.
    + intros [|i] group files f Hg Hfiles; simpl in Hg, Hfiles.
      * injection Hg as <-. injection Hfiles as <-. rewrite Hmatched.
        split; [intros (? & ? & ?); split_and!; [done..|]; intros k ? Hk; lia|].
        intros (? & ? & ? & _). done.
      * rewrite (Hspec i group files f Hg Hfiles), seenMap_add_all, Hmatched.
        split.
        -- intros (Hall & Hm & Hseen & Hearlier).
           split_and!; [done|done|by intros ?; apply Hseen; left|].
           intros [|k] earlier Hk Hlook; simpl in Hlook.
           ++ injection Hlook as <-.
              destruct (fileMatcherOf globToRegex RegExp_test g f) eqn:E; [|done].
              exfalso. apply Hseen. right. split_and!; [done..|].
              intros ?. apply Hseen. by left.
           ++ apply (Hearlier k); [lia|done].
        -- intros (Hall & Hm & Hseen & Hearlier). split_and!; [done|done| |].
           ++ intros [?|(_ & Hg0 & _)]; [done|].
              rewrite (Hearlier 0%nat g) in Hg0; [done|lia|done].
           ++ intros k earlier Hk Hlook. apply (Hearlier (S k)); [lia|done].
Qed.


Lemma assignFiles_no_versionedFiles allFiles groups seenMap filesPerGroup :
  Forall (λ g, Cfg.versionedFiles (Cfg.resources g) = None) groups →
  ∃ out, assignFiles globToRegex RegExp_test allFiles groups seenMap filesPerGroup = Ok out.
Proof.
  revert seenMap filesPerGroup.
  induction groups as [|g groups IH]; intros seenMap filesPerGroup Hall; simpl.
  - by eexists.
  - apply Forall_cons in Hall as [-> Hall]. by apply IH.
Qed.

(** The loop does not depend on the order in which the files are listed. *)
Lemma assignFiles_order_independent allFiles1 allFiles2 groups seenMap filesPerGroup :
  allFiles1 ≡ₚ allFiles2 →
  assignFiles globToRegex RegExp_test allFiles1 groups seenMap filesPerGroup
  = assignFiles globToRegex RegExp_test allFiles2 groups seenMap filesPerGroup.
Proof.
  intros Hperm. revert seenMap filesPerGroup.
  induction groups as [|g groups IH]; intros seenMap filesPerGroup; simpl; [done|].
  destruct (Cfg.versionedFiles (Cfg.resources g)); [done|].
  set (accepted := λ file, Is_true (fileMatcherOf globToRegex RegExp_test g file)).
  rewrite (sort_order_independent
             (filter (λ file, file ∉ seenMap) (filter accepted allFiles1))
             (filter (λ file, file ∉ seenMap) (filter accepted allFiles2))).
  - apply IH.
  - by rewrite Hperm.
Qed.

(** The [Map] after the loop of [processAssetGroups], read entry by entry:
    the keys are the groups in config order, and a listed file is among the
    files of a group exactly when the group's matcher accepts it and the
    matcher of no earlier group does. *)
Lemma filesPerGroup_spec allFiles groups filesPerGroup :
  assignFiles globToRegex RegExp_test allFiles groups ∅ [] = Ok filesPerGroup →
  filesPerGroup.*1 = groups ∧
  ∀ (i : nat) group files f,
    filesPerGroup !! i = Some (group, files) →
    (f ∈ files ↔
     f ∈ allFiles ∧ fileMatcherOf globToRegex RegExp_test group f = true ∧
     ∀ (k : nat) earlier files0, (k < i)%nat → filesPerGroup !! k = Some (earlier, files0) →
       fileMatcherOf globToRegex RegExp_test earlier f = false).
Proof.
  intros (lists & -> & Hlen & Hspec)%assignFiles_Ok. simpl. split.
  - apply fst_zip. lia.
  - intros i group files f Hlook.
    apply lookup_zip_with_Some in Hlook as (g & l & [= -> ->] & Hg & Hl).
    rewrite (Hspec i g l f Hg Hl). split.
    + intros (Hall & Hm & _ & Hearlier). split_and!; [done..|].
      intros k earlier files0 Hk Hlook.
      apply lookup_zip_with_Some in Hlook as (g0 & l0 & [= -> ->] & Hg0 & Hl0).
      by apply (Hearlier k).
    + intros (Hall & Hm & Hearlier). split_and!; [done|done|apply not_elem_of_empty|].
      intros k earlier Hk Hg0.
      destruct (lookup_lt_is_Some_2 lists k) as [l0 Hl0].
      { rewrite Hlen. by eapply lookup_lt_Some. }
      apply (Hearlier k earlier l0 Hk). apply lookup_zip_with_Some. eauto 6.
Qed.

(** The files of every group are listed files. *)
Lemma filesPerGroup_listed allFiles groups filesPerGroup f :
  assignFiles globToRegex RegExp_test allFiles groups ∅ [] = Ok filesPerGroup →
  f ∈ mjoin (filesPerGroup.*2) → f ∈ allFiles.
Proof.
  intros [_ Hspec]%filesPerGroup_spec (files & Hf & Hfiles)%list_elem_of_join.
  apply list_elem_of_fmap in Hfiles as ([g l] & -> & Hentry).
  destruct (proj1 (list_elem_of_lookup _ _) Hentry) as [i Hi].
  by destruct (proj1 (Hspec i g l f Hi) Hf) as [? _].
Qed.

Lemma zip_with_hashes {A B} (h : A → B) (xs : list A) :
  zip xs (h <$> xs) = (λ x, (x, h x)) <$> xs.
Proof. induction xs as [|x xs IH]; csimpl; [done|]. by rewrite IH. Qed.

(** What a successful [process] is made of. *)
Lemma process_Ok (parseDurationToMs : string → result Z) fs baseHref config now m :
  process globToRegex parseDurationToMs RegExp_test fs baseHref config now = Ok m →
  ∃ filesPerGroup,
    assignFiles globToRegex RegExp_test (fs_list fs)
                (default [] (Cfg.assetGroups config)) ∅ [] = Ok filesPerGroup ∧
    Manifest.assetGroups m = emitAssetGroup globToRegex baseHref <$> filesPerGroup ∧
    Manifest.hashTable m =
      orderedHashTable baseHref (fs_hash fs) (sort (mjoin (filesPerGroup.*2))).
Proof.
  unfold process, process_run, processAssetGroups.
  destruct (assignFiles _ _ _ _ _ _) as [filesPerGroup|e]; simpl; [|done].
  destruct (processDataGroups _ _ _ _) as [dataGroups|e]; simpl; [|done].
  intros [= <-]. exists filesPerGroup. simpl. split_and!; [done..|].
  by rewrite zip_with_hashes, <- list_fmap_compose.
Qed.

(** [process] returns a manifest whenever no asset group declares
    [versionedFiles] and every duration of the data groups parses. *)
Lemma process_succeeds (parseDurationToMs : string → result Z) fs baseHref config now :
  Forall (λ g, Cfg.versionedFiles (Cfg.resources g) = None)
         (default [] (Cfg.assetGroups config)) →
  (∃ dataGroups,
     processDataGroups globToRegex parseDurationToMs baseHref config = Ok dataGroups) →
  ∃ m, process globToRegex parseDurationToMs RegExp_test fs baseHref config now = Ok m.
Proof.
  intros Hgroups [dataGroups Hdata].
  destruct (assignFiles_no_versionedFiles (fs_list fs) _ ∅ [] Hgroups) as [filesPerGroup Hrun].
  unfold process, process_run, processAssetGroups. rewrite Hrun. simpl. rewrite Hdata. simpl.
  by eexists.
Qed.

End GeneratorFacts.

(** ** Deduplication across asset groups *)

Section UrlFacts.

(** On paths that start with ["/"], joining with a base is injective. *)
Lemma joinUrls_inj (baseHref f1 f2 : string) :
  startsWith f1 "/" = true → startsWith f2 "/" = true →
  joinUrls baseHref f1 = joinUrls baseHref f2 → f1 = f2.
Proof.
  intros H1 H2. unfold joinUrls. rewrite H1, H2. simpl.
  apply startsWith_slash in H1 as [r1 ->]. apply startsWith_slash in H2 as [r2 ->].
  destruct (endsWith baseHref "/"); simpl.
  - rewrite !append_nil_l. by intros ->%(inj (String.app baseHref)).
  - by intros ?%(inj (String.app baseHref)).
Qed.

(** Every URL made by [joinUrls] has a ["/"] in it: none is an array
    index, and the properties of the hash table enumerate in the order in
    which they were written. *)
Lemma joinUrls_contains_slash (a b : string) : Spec.contains (joinUrls a b) "/".
Proof.
  unfold joinUrls.
  destruct (endsWith a "/") eqn:Ea, (startsWith b "/") eqn:Eb; cbn [andb negb].
  - apply endsWith_slash in Ea as [front ->]. rewrite append_assoc. by eexists front, _.
  - apply endsWith_slash in Ea as [front ->]. rewrite append_assoc. by eexists front, _.
  - apply startsWith_slash in Eb as [rest ->]. by exists a, rest.
  - by exists a, b.
Qed.

End UrlFacts.

(** C1, amended. The group that gets a file is the first group in config
    order whose file globs match it: the file is among that group's files
    and its URL among that group's urls. The per-group file lists are
    pairwise disjoint, so the file is in the list of no other group, and
    when the listed paths all start with ["/"] the per-group urls are
    pairwise disjoint as well. *)
Theorem dedup_first_match_wins (globToRegex : string → bool → string)
    (parseDurationToMs : string → result Z) (RegExp_test : string → string → bool)
    (fs : Filesystem) (baseHref : string) (config : Cfg.Config) (now : Z) (m : Manifest.t) :
  process globToRegex parseDurationToMs RegExp_test fs baseHref config now = Ok m →
  ∃ filesPerGroup : FilesPerGroup,
    assignFiles globToRegex RegExp_test (fs_list fs)
                (default [] (Cfg.assetGroups config)) ∅ [] = Ok filesPerGroup ∧
    filesPerGroup.*1 = default [] (Cfg.assetGroups config) ∧
    Manifest.assetGroups m = emitAssetGroup globToRegex baseHref <$> filesPerGroup ∧
    (∀ (i : nat) G1 files1 f,
       filesPerGroup !! i = Some (G1, files1) →
       f ∈ fs_list fs →
       fileMatcherOf globToRegex RegExp_test G1 f = true →
       (∀ (k : nat) G0 files0, (k < i)%nat → filesPerGroup !! k = Some (G0, files0) →
          fileMatcherOf globToRegex RegExp_test G0 f = false) →
       f ∈ files1 ∧
       joinUrls baseHref f ∈ Manifest.urls (emitAssetGroup globToRegex baseHref (G1, files1))) ∧
    (∀ (i j : nat) Gi Gj files_i files_j f,
       i ≠ j →
       filesPerGroup !! i = Some (Gi, files_i) →
       filesPerGroup !! j = Some (Gj, files_j) →
       f ∈ files_i → f ∉ files_j) ∧
    ((∀ f, f ∈ fs_list fs → startsWith f "/" = true) →
     ∀ (i j : nat) out_i out_j url,
       i ≠ j →
       Manifest.assetGroups m !! i = Some out_i →
       Manifest.assetGroups m !! j = Some out_j →
       url ∈ Manifest.urls out_i → url ∉ Manifest.urls out_j).
Proof.
  intros (filesPerGroup & Hrun & Hgroups & _)%process_Ok.
  destruct (filesPerGroup_spec _ _ _ _ _ Hrun) as [Hkeys Hspec].
  assert (Hdisjoint : ∀ (i j : nat) Gi Gj files_i files_j f,
            (i < j)%nat →
            filesPerGroup !! i = Some (Gi, files_i) →
            filesPerGroup !! j = Some (Gj, files_j) →
            f ∈ files_i → f ∉ files_j).
  { intros i j Gi Gj files_i files_j f Hij Hi Hj Hfi Hfj.
    destruct (proj1 (Hspec i Gi files_i f Hi) Hfi) as (_ & Hmi & _).
    destruct (proj1 (Hspec j Gj files_j f Hj) Hfj) as (_ & _ & Hearlier).
    rewrite (Hearlier i Gi files_i Hij Hi) in Hmi. done. }
  assert (Hdisjoint' : ∀ (i j : nat) Gi Gj files_i files_j f,
            i ≠ j →
            filesPerGroup !! i = Some (Gi, files_i) →
            filesPerGroup !! j = Some (Gj, files_j) →
            f ∈ files_i → f ∉ files_j).
  { intros i j Gi Gj files_i files_j f Hij Hi Hj Hfi Hfj.
    destruct (decide (i < j)%nat) as [Hlt|Hge].
    - by apply (Hdisjoint i j Gi Gj files_i files_j f).
    - apply (Hdisjoint j i Gj Gi files_j files_i f); [lia|done..]. }
  exists filesPerGroup. split_and!; [done..| | |].
  - intros i G1 files1 f Hi Hf Hm Hfirst.
    assert (f ∈ files1) as Hin by (apply (Hspec i G1 files1 f Hi); eauto).
    split; [done|]. simpl. apply list_elem_of_fmap. eauto.
  - exact Hdisjoint'.
  - intros Hslash i j out_i out_j url Hij Hi Hj Hui Huj.
    rewrite Hgroups in Hi, Hj.
    apply list_lookup_fmap_Some in Hi as ([Gi files_i] & -> & Hi).
    apply list_lookup_fmap_Some in Hj as ([Gj files_j] & -> & Hj).
    simpl in Hui, Huj.
    apply list_elem_of_fmap in Hui as (fi & -> & Hfi).
    apply list_elem_of_fmap in Huj as (fj & Heq & Hfj).
    assert (fi = fj) as ->.
    { apply (joinUrls_inj baseHref); [..|done]; apply Hslash.
      - by destruct (proj1 (Hspec i Gi files_i fi Hi) Hfi) as [? _].
      - by destruct (proj1 (Hspec j Gj files_j fj Hj) Hfj) as [? _]. }
    by apply (Hdisjoint' i j Gi Gj files_i files_j fj).
Qed.

Lemma dedup_first_match_wins_witness :
  ∃ m, Sample.process (Sample.snapshot ["/a"; "/b.js"]) "/" Sample.threeGroups 0 = Ok m ∧
       ∃ filesPerGroup : FilesPerGroup,
         filesPerGroup.*2 = [["/a"; "/b.js"]; []; []] ∧
         Manifest.assetGroups m
         = emitAssetGroup GlobModel.globToRegex "/" <$> filesPerGroup.
Proof.
  eexists. split; [vm_compute; reflexivity|].
  destruct (dedup_first_match_wins GlobModel.globToRegex Sample.parseDurationToMs
              GlobModel.RegExp_test (Sample.snapshot ["/a"; "/b.js"]) "/"
              Sample.threeGroups 0 _ ltac:(vm_compute; reflexivity))
    as (filesPerGroup & Hrun & _ & Hgroups & _).
  exists filesPerGroup. split; [|exact Hgroups].
  vm_compute in Hrun. by injection Hrun as <-.
Defined.

(** The wording for any two groups fails whatever the glob compiler and the
    regular expressions are, as soon as some glob list matches some file:
    put the list in three groups; the file goes to the first, so the second
    does not have it although it is declared before the third. *)
Lemma dedup_fails_with_three_matching_groups (globToRegex : string → bool → string)
    (parseDurationToMs : string → result Z) (RegExp_test : string → string → bool)
    (globs : list string) (f : string) :
  globListToMatcher globToRegex RegExp_test globs f = true →
  ¬ Spec.dedup_between_any_two_groups globToRegex parseDurationToMs RegExp_test.
Proof.
  intros Hmatch Hclaim.
  set (fs := {| fs_list := [f]; fs_hash := λ file, file |}).
  set (config := Sample.config [Sample.assetGroup "first" globs;
                                Sample.assetGroup "second" globs;
                                Sample.assetGroup "third" globs]).
  destruct (process_succeeds globToRegex RegExp_test parseDurationToMs fs "/" config 0)
    as [m Hm]; [by repeat constructor|by exists []|].
  destruct (process_Ok _ _ _ _ _ _ _ _ Hm) as (filesPerGroup & Hrun & Hgroups & _).
  destruct (filesPerGroup_spec _ _ _ _ _ Hrun) as [Hkeys Hspec].
  clear Hrun. unfold config in Hkeys. simpl in Hkeys.
  destruct filesPerGroup as [|[g1 l1] [|[g2 l2] [|[g3 l3] [|]]]]; simplify_eq/=.
  destruct (Hclaim fs "/" config 0 m 1%nat 2%nat
              (Sample.assetGroup "second" globs) (Sample.assetGroup "third" globs)
              (emitAssetGroup globToRegex "/" (Sample.assetGroup "second" globs, l2))
              (emitAssetGroup globToRegex "/" (Sample.assetGroup "third" globs, l3)) f)
    as [Hin _]; [done|done|done|lia|by rewrite Hgroups..|by left|done|done|].
  simpl in Hin. apply list_elem_of_fmap in Hin as (f' & _ & Hf').
  destruct (proj1 (Hspec 1%nat _ _ f' eq_refl) Hf') as (Hlisted & _ & Hearlier).
  apply list_elem_of_singleton in Hlisted as ->.
  specialize (Hearlier 0%nat _ _ ltac:(lia) eq_refl).
  unfold fileMatcherOf in Hearlier. simpl in Hearlier. congruence.
Qed.

(** C1 as worded fails: with three groups whose globs all match ["/a"], the
    file is matched by the second and by the third group, the second is
    declared before the third, and the second group's urls do not have the
    file: the first group took it. *)
Lemma dedup_between_any_two_groups_counterexample :
  ¬ Spec.dedup_between_any_two_groups
      GlobModel.globToRegex Sample.parseDurationToMs GlobModel.RegExp_test.
Proof.
  intros Hclaim.
  destruct (Hclaim (Sample.snapshot ["/a"]) "/" Sample.threeGroups 0 _ 1%nat 2%nat
              (Sample.assetGroup "second" ["/**"]) (Sample.assetGroup "third" ["/**"])
              _ _ "/a"
              ltac:(vm_compute; reflexivity) eq_refl eq_refl ltac:(lia)
              ltac:(vm_compute; reflexivity) ltac:(vm_compute; reflexivity)
              ltac:(by left) ltac:(vm_compute; reflexivity) ltac:(vm_compute; reflexivity))
    as [Hin _].
  vm_compute in Hin. by apply elem_of_nil in Hin.
Qed.

(** ** The hash table *)

Section HashTableFacts.

Context (baseHref : string) (hash : string → string) (files : list string).

Lemma unordered_keys_NoDup : NoDup (JsObject.keys (filledHashTable baseHref hash files)).
Proof. apply setAll_keys_NoDup, NoDup_nil_2. Qed.

Lemma table_keys : JsObject.keys (orderedHashTable baseHref hash files) = sort (JsObject.keys (filledHashTable baseHref hash files)).
Proof. apply withOrderedKeys_keys, unordered_keys_NoDup. Qed.

Lemma table_keys_NoDup : NoDup (JsObject.keys (orderedHashTable baseHref hash files)).
Proof. rewrite table_keys. apply sort_NoDup, unordered_keys_NoDup. Qed.

Lemma table_keys_sorted :
  StronglySorted (λ a b, String.ltb a b = true) (JsObject.keys (orderedHashTable baseHref hash files)).
Proof.
  apply sorted_NoDup_strict; [|apply table_keys_NoDup].
  rewrite table_keys. apply sort_sorted.
Qed.

Lemma table_key_iff (key : string) :
  key ∈ JsObject.keys (orderedHashTable baseHref hash files) ↔ ∃ f, f ∈ files ∧ key = joinUrls baseHref f.
Proof.
  rewrite table_keys, sort_elem_of. unfold filledHashTable. rewrite setAll_keys.
  rewrite <- list_fmap_compose, list_elem_of_fmap. simpl.
  split.
  - intros [[]%elem_of_nil|(f & -> & Hf)]. eauto.
  - intros (f & Hf & ->). right. eauto.
Qed.

Lemma table_get_inv (key value : string) :
  JsObject.get (orderedHashTable baseHref hash files) key = Some value →
  ∃ f, f ∈ files ∧ key = joinUrls baseHref f ∧ value = hash f.
Proof.
  unfold orderedHashTable. rewrite withOrderedKeys_get by apply unordered_keys_NoDup.
  intros [Hin|Hget]%setAll_get_inv; [|done].
  apply list_elem_of_fmap in Hin as (f & [= -> ->] & Hf). eauto.
Qed.

Lemma table_get (f : string) :
  (∀ f', f' ∈ files → startsWith f' "/" = true) →
  f ∈ files →
  JsObject.get (orderedHashTable baseHref hash files) (joinUrls baseHref f) = Some (hash f).
Proof.
  intros Hslash Hf. unfold orderedHashTable.
  rewrite withOrderedKeys_get by apply unordered_keys_NoDup.
  apply setAll_get_written.
  - intros k v v' (f1 & [= -> ->] & Hf1)%list_elem_of_fmap
                  (f2 & [= Hk ->] & Hf2)%list_elem_of_fmap.
    by rewrite (joinUrls_inj baseHref f1 f2) by auto.
  - apply list_elem_of_fmap. eauto.
Qed.

End HashTableFacts.

Section ManifestFacts.

Context (globToRegex : string → bool → string).

(** A URL is in the urls of some emitted group exactly when it is the URL
    of a file of some group. *)
Lemma emitted_urls (baseHref : string) (filesPerGroup : FilesPerGroup) (url : string) :
  (∃ group, group ∈ emitAssetGroup globToRegex baseHref <$> filesPerGroup
            ∧ url ∈ Manifest.urls group) ↔
  ∃ f, f ∈ sort (mjoin (filesPerGroup.*2)) ∧ url = joinUrls baseHref f.
Proof.
  split.
  - intros (group & ([g files] & -> & Hentry)%list_elem_of_fmap & Hurl). simpl in Hurl.
    apply list_elem_of_fmap in Hurl as (f & -> & Hf).
    exists f. split; [|done]. apply sort_elem_of, list_elem_of_join.
    exists files. split; [done|]. apply list_elem_of_fmap. by exists (g, files).
  - intros (f & Hf & ->). rewrite sort_elem_of, list_elem_of_join in Hf.
    destruct Hf as (files & Hf & Hfiles).
    apply list_elem_of_fmap in Hfiles as ([g files'] & -> & Hentry). simpl in Hf.
    exists (emitAssetGroup globToRegex baseHref (g, files')). split.
    + apply list_elem_of_fmap. eauto.
    + simpl. apply list_elem_of_fmap. eauto.
Qed.

End ManifestFacts.

(** C2. When every listed path starts with ["/"], the hash table of the
    manifest has exactly one entry per file of the emitted asset groups: its
    keys are distinct and are exactly the urls of the groups; the entry of a
    file is under [joinUrls baseHref file] and holds the snapshot's hash of
    the file; there is no other entry. *)
Theorem hashTable_complete (globToRegex : string → bool → string)
    (parseDurationToMs : string → result Z) (RegExp_test : string → string → bool)
    (fs : Filesystem) (baseHref : string) (config : Cfg.Config) (now : Z) (m : Manifest.t) :
  (∀ f, f ∈ fs_list fs → startsWith f "/" = true) →
  process globToRegex parseDurationToMs RegExp_test fs baseHref config now = Ok m →
  NoDup (JsObject.keys (Manifest.hashTable m)) ∧
  (∀ key, key ∈ JsObject.keys (Manifest.hashTable m) ↔
          ∃ group, group ∈ Manifest.assetGroups m ∧ key ∈ Manifest.urls group) ∧
  (∀ f group,
     f ∈ fs_list fs → group ∈ Manifest.assetGroups m →
     joinUrls baseHref f ∈ Manifest.urls group →
     JsObject.get (Manifest.hashTable m) (joinUrls baseHref f) = Some (fs_hash fs f)) ∧
  (∀ key value,
     JsObject.get (Manifest.hashTable m) key = Some value →
     ∃ f group,
       f ∈ fs_list fs ∧ group ∈ Manifest.assetGroups m ∧
       key = joinUrls baseHref f ∧ key ∈ Manifest.urls group ∧ value = fs_hash fs f).
Proof.
  intros Hslash (filesPerGroup & Hrun & -> & ->)%process_Ok.
  assert (Hlisted : ∀ f, f ∈ sort (mjoin (filesPerGroup.*2)) → f ∈ fs_list fs).
  { intros f Hf. rewrite sort_elem_of in Hf.
    exact (filesPerGroup_listed _ _ _ _ _ f Hrun Hf). }
  split_and!.
  - apply table_keys_NoDup.
  - intros key. by rewrite table_key_iff, emitted_urls.
  - intros f group Hf Hgroup Hurl.
    destruct (proj1 (emitted_urls globToRegex baseHref filesPerGroup (joinUrls baseHref f)))
      as (f' & Hf' & Heq); [by eauto|].
    apply joinUrls_inj in Heq; [subst f'|by auto..].
    apply table_get; [by auto|done].
  - intros key value (f & Hf & -> & ->)%table_get_inv.
    destruct (proj2 (emitted_urls globToRegex baseHref filesPerGroup (joinUrls baseHref f)))
      as (group & Hgroup & Hurl); [by eauto|].
    exists f, group. split_and!; auto.
Qed.

Lemma hashTable_complete_witness :
  ∃ m, Sample.process (Sample.snapshot Sample.appFiles) "/" Sample.appConfig 0 = Ok m ∧
       Manifest.urls <$> Manifest.assetGroups m = [["/main.js"; "/vendor.js"]] ∧
       Manifest.hashTable m
       = [("/main.js", "sha1-of:/main.js"); ("/vendor.js", "sha1-of:/vendor.js")] ∧
       NoDup (JsObject.keys (Manifest.hashTable m)).
Proof.
  eexists. split; [vm_compute; reflexivity|].
  split; [vm_compute; reflexivity|]. split; [vm_compute; reflexivity|].
  refine (proj1 (hashTable_complete GlobModel.globToRegex Sample.parseDurationToMs
                   GlobModel.RegExp_test (Sample.snapshot Sample.appFiles) "/"
                   Sample.appConfig 0 _ _ _)).
  - intros f Hf. simpl in Hf. unfold Sample.appFiles in Hf.
    repeat (apply elem_of_cons in Hf as [->|Hf]; [reflexivity|]).
    by apply elem_of_nil in Hf.
  - vm_compute; reflexivity.
Defined.

(** C4. The keys of the manifest's hash table are distinct and in strictly
    ascending order, whatever the configuration and however the files were
    listed. *)
Theorem hashTable_keys_sorted (globToRegex : string → bool → string)
    (parseDurationToMs : string → result Z) (RegExp_test : string → string → bool)
    (fs : Filesystem) (baseHref : string) (config : Cfg.Config) (now : Z) (m : Manifest.t) :
  process globToRegex parseDurationToMs RegExp_test fs baseHref config now = Ok m →
  NoDup (JsObject.keys (Manifest.hashTable m)) ∧
  StronglySorted (λ a b, String.ltb a b = true) (JsObject.keys (Manifest.hashTable m)).
Proof.
  intros (filesPerGroup & _ & _ & ->)%process_Ok.
  split; [apply table_keys_NoDup|apply table_keys_sorted].
Qed.

Lemma hashTable_keys_sorted_witness :
  ∃ m, Sample.process (Sample.snapshot ["/vendor.js"; "/readme.txt"; "/main.js"]) "/app/"
                      (Sample.config [Sample.assetGroup "all" ["/**"]]) 0 = Ok m ∧
       JsObject.keys (Manifest.hashTable m)
       = ["/app/main.js"; "/app/readme.txt"; "/app/vendor.js"] ∧
       StronglySorted (λ a b, String.ltb a b = true) (JsObject.keys (Manifest.hashTable m)).
Proof.
  eexists. split; [vm_compute; reflexivity|]. split; [vm_compute; reflexivity|].
  refine (proj2 (hashTable_keys_sorted GlobModel.globToRegex Sample.parseDurationToMs
                   GlobModel.RegExp_test
                   (Sample.snapshot ["/vendor.js"; "/readme.txt"; "/main.js"]) "/app/"
                   (Sample.config [Sample.assetGroup "all" ["/**"]]) 0 _ _)).
  vm_compute; reflexivity.
Defined.

(** ** Determinism *)

(** C5. Two invocations of [process] on the same configuration and on
    snapshots that list the same files, in whatever order, with the same
    hashes, have the same outcome: both fail with the same error, or both
    return manifests that agree in every field but [timestamp]. *)
Theorem process_deterministic (globToRegex : string → bool → string)
    (parseDurationToMs : string → result Z) (RegExp_test : string → string → bool)
    (fs1 fs2 : Filesystem) (baseHref : string) (config : Cfg.Config) (now1 now2 : Z) :
  fs_list fs1 ≡ₚ fs_list fs2 →
  (∀ f, f ∈ fs_list fs1 → fs_hash fs1 f = fs_hash fs2 f) →
  Spec.same_outcome
    (process globToRegex parseDurationToMs RegExp_test fs1 baseHref config now1)
    (process globToRegex parseDurationToMs RegExp_test fs2 baseHref config now2).
Proof.
  intros Hperm Hhash. unfold process, process_run, processAssetGroups.
  rewrite <- (assignFiles_order_independent globToRegex RegExp_test _ _ _ _ _ Hperm).
  destruct (assignFiles _ _ _ _ _ _) as [filesPerGroup|e] eqn:Hrun; simpl; [|done].
  destruct (processDataGroups _ _ _ _) as [dataGroups|e]; simpl; [|done].
  assert ((λ file, fs_hash fs1 file) <$> sort (mjoin (filesPerGroup.*2))
          = (λ file, fs_hash fs2 file) <$> sort (mjoin (filesPerGroup.*2))) as Hhashes.
  { apply Forall_fmap_ext_1, Forall_forall. intros f Hf. apply Hhash.
    rewrite sort_elem_of in Hf. exact (filesPerGroup_listed _ _ _ _ _ f Hrun Hf). }
  unfold Spec.same_outcome, Spec.same_except_timestamp. simpl.
  rewrite Hhashes. by split_and!.
Qed.

Lemma process_deterministic_witness :
  Spec.same_outcome
    (Sample.process (Sample.snapshot ["/main.js"; "/vendor.js"; "/readme.txt"]) "/"
                    Sample.appConfig 1000)
    (Sample.process (Sample.snapshot ["/readme.txt"; "/vendor.js"; "/main.js"]) "/"
                    Sample.appConfig 2000).
Proof.
  apply process_deterministic.
  - simpl. eapply perm_trans; [apply perm_swap|].
    eapply perm_trans; [apply perm_skip, perm_swap|]. apply perm_swap.
  - reflexivity.
Defined.

(** ** The retired [versionedFiles] option *)




(** ** [urlToRegex] *)

Section UrlToRegexFacts.

Lemma contains_cons (c : ascii) (s p : string) :
  Spec.contains (String c s) p ↔ startsWith (String c s) p = true ∨ Spec.contains s p.
Proof.
  split.
  - intros ([|d before] & after & Heq).
    + left. apply startsWith_iff. by exists after.
    + right. exists before, after. rewrite append_cons in Heq. congruence.
  - intros [[rest Hrest]%startsWith_iff|(before & after & ->)].
    + by exists "", rest.
    + by exists (String c before), after.
Qed.

Lemma contains_nil (p : string) : Spec.contains "" p ↔ startsWith "" p = true.
Proof.
  rewrite startsWith_iff. split.
  - intros ([|d before] & after & Heq); [by exists after|discriminate].
  - intros [rest Hrest]. by exists "", rest.
Qed.

Lemma indexOf_from_found (s p : string) (i : Z) :
  0 ≤ i → indexOf_from s p i = -1 ↔ ¬ Spec.contains s p.
Proof.
  revert i. induction s as [|c s IH]; intros i Hi.
  - rewrite contains_nil. cbn [indexOf_from].
    destruct (startsWith "" p); split; [lia|tauto|done|done].
  - rewrite contains_cons. cbn [indexOf_from].
    destruct (startsWith (String c s) p).
    + split; [lia|tauto].
    + rewrite IH by lia. split; [intros ? [?|?]; done|tauto].
Qed.

Lemma replace_leading_dot_unfold (s : string) :
  replace_leading_dot s = if startsWith s "./" then substr s 1 else s.
Proof.
  destruct s as [|c [|d rest]]; [done| |].
  - by destruct c as [[] [] [] [] [] [] [] []].
  - destruct c as [[] [] [] [] [] [] [] []]; try reflexivity.
    by destruct d as [[] [] [] [] [] [] [] []].
Qed.

Lemma indexOf_not_found (s p : string) : indexOf s p = -1 ↔ ¬ Spec.contains s p.
Proof. by apply indexOf_from_found. Qed.

End UrlToRegexFacts.

(** C8, amended. A URL that starts with ["/"] or contains ["://"] goes to
    the glob compiler as it is. Any other URL is first joined with the base,
    after one leading ["."] is taken off a base that starts with ["./"]: the
    ["/"] stays, so the base ["./foo/"] contributes ["/foo/"], and only the
    joined result goes to the glob compiler. *)
Theorem urlToRegex_relative_urls (globToRegex : string → bool → string)
    (url baseHref : string) (literalQuestionMark : bool) :
  (Spec.starts_with_slash url ∨ Spec.contains url "://" →
     urlToRegex globToRegex url baseHref literalQuestionMark
     = globToRegex url literalQuestionMark) ∧
  (¬ Spec.starts_with_slash url → ¬ Spec.contains url "://" →
     urlToRegex globToRegex url baseHref literalQuestionMark
     = globToRegex (joinUrls (replace_leading_dot baseHref) url) literalQuestionMark) ∧
  (∀ rest, baseHref = "./" +:+ rest → replace_leading_dot baseHref = "/" +:+ rest) ∧
  ((¬ ∃ rest, baseHref = "./" +:+ rest) → replace_leading_dot baseHref = baseHref) ∧
  urlToRegex globToRegex "bar" "./foo/" literalQuestionMark
  = globToRegex "/foo/bar" literalQuestionMark.
Proof.
  unfold urlToRegex. split_and!.
  - intros [Hslash%startsWith_slash|Hscheme].
    + by rewrite Hslash.
    + destruct (Z.eqb_spec (indexOf url "://") (-1)) as [Hidx|_].
      * by apply indexOf_not_found in Hidx.
      * by rewrite andb_false_r.
  - intros Hslash Hscheme.
    destruct (startsWith url "/") eqn:E; [by apply startsWith_slash in E|].
    apply indexOf_not_found in Hscheme. by rewrite Hscheme.
  - by intros rest ->.
  - intros Hbase. rewrite replace_leading_dot_unfold.
    destruct (startsWith baseHref "./") eqn:E; [|done].
    by apply startsWith_iff in E.
  - reflexivity.
Qed.

Lemma urlToRegex_relative_urls_witness :
  urlToRegex GlobModel.globToRegex "/api/**" "./foo/" true = "/api/[^]*" ∧
  urlToRegex GlobModel.globToRegex "https://cdn/x?y" "./foo/" true = "https://cdn/x\?y" ∧
  urlToRegex GlobModel.globToRegex "img/*.png" "./foo/" true = "/foo/img/[^/]*\.png".
Proof.
  split_and!.
  - rewrite (proj1 (urlToRegex_relative_urls GlobModel.globToRegex "/api/**" "./foo/" true));
      [reflexivity|]. left. by exists "api/**".
  - rewrite (proj1 (urlToRegex_relative_urls GlobModel.globToRegex "https://cdn/x?y"
                      "./foo/" true)); [reflexivity|]. right. by exists "https", "cdn/x?y".
  - rewrite (proj1 (proj2 (urlToRegex_relative_urls GlobModel.globToRegex "img/*.png"
                             "./foo/" true))); [reflexivity| |].
    + intros H. apply startsWith_slash in H. discriminate.
    + intros H. apply indexOf_not_found in H; [done|]. reflexivity.
Defined.

(** The wording with ["./"] stripped fails for every glob compiler that
    tells ["/foo/bar"] from ["foo/bar"]. *)
Lemma urlToRegex_keeps_the_slash (globToRegex : string → bool → string) :
  globToRegex "/foo/bar" true ≠ globToRegex "foo/bar" true →
  ¬ Spec.urlToRegex_strips_dot_slash globToRegex.
Proof. intros Hdiffer Hclaim. apply Hdiffer. exact (Hclaim "bar" "./foo/" true). Qed.

(** C8 as worded fails: with the base ["./foo/"] the code hands the glob
    compiler ["/foo/bar"] for the URL ["bar"], not the ["foo/bar"] that
    stripping ["./"] from the base would give. *)
Lemma urlToRegex_strips_dot_slash_counterexample :
  ¬ Spec.urlToRegex_strips_dot_slash GlobModel.globToRegex.
Proof.
  intros Hclaim. specialize (Hclaim "bar" "./foo/" true).
  vm_compute in Hclaim. discriminate.
Qed.

(** ** Navigation URLs *)

(** C9. Without [navigationUrls] from the caller, [processNavigationUrls]
    returns the four default entries, the first positive and the other three
    negative, each the anchored regular expression of its glob; under that
    list ["/foo/bar"] is included and ["/foo/bar.js"], ["/foo/a__b"] and
    ["/foo/a__b/c"] are excluded, by the fold of section 4.1 and as a plain
    allow/deny list alike. *)
Theorem default_navigation_urls (baseHref : string) :
  (∀ globToRegex : string → bool → string,
     processNavigationUrls globToRegex baseHref None =
     [ {| Manifest.nav_positive := true;
          Manifest.nav_regex := "^" +:+ globToRegex "/**" false +:+ "$" |};
       {| Manifest.nav_positive := false;
          Manifest.nav_regex := "^" +:+ globToRegex "/**/*.*" false +:+ "$" |};
       {| Manifest.nav_positive := false;
          Manifest.nav_regex := "^" +:+ globToRegex "/**/*__*" false +:+ "$" |};
       {| Manifest.nav_positive := false;
          Manifest.nav_regex := "^" +:+ globToRegex "/**/*__*/**" false +:+ "$" |} ]) ∧
  GlobModel.navigationAllowed (processNavigationUrls GlobModel.globToRegex baseHref None)
    <$> ["/foo/bar"; "/foo/bar.js"; "/foo/a__b"; "/foo/a__b/c"]
  = [true; false; false; false] ∧
  GlobModel.navigationAllowed_plain (processNavigationUrls GlobModel.globToRegex baseHref None)
    <$> ["/foo/bar"; "/foo/bar.js"; "/foo/a__b"; "/foo/a__b/c"]
  = [true; false; false; false].
Proof.
  split_and!.
  - intros globToRegex. reflexivity.
  - vm_compute. reflexivity.
  - vm_compute. reflexivity.
Qed.

(** ** Groups without file globs *)

(** C10. The matcher of an empty glob list accepts no candidate: [false]
    is where the fold starts, and there is nothing to fold. A group whose
    [files] is empty or absent is therefore emitted with an empty urls
    list. *)
Theorem empty_files_match_nothing (globToRegex : string → bool → string)
    (parseDurationToMs : string → result Z) (RegExp_test : string → string → bool) :
  (∀ candidate, globListToMatcher globToRegex RegExp_test [] candidate = false) ∧
  (∀ candidate, matches RegExp_test candidate [] = false) ∧
  (∀ fs baseHref config now m (i : nat) group,
     process globToRegex parseDurationToMs RegExp_test fs baseHref config now = Ok m →
     default [] (Cfg.assetGroups config) !! i = Some group →
     default [] (Cfg.files (Cfg.resources group)) = [] →
     ∃ out, Manifest.assetGroups m !! i = Some out ∧
            Manifest.name out = Cfg.name group ∧
            Manifest.urls out = []).
Proof.
  split_and!; [done..|].
  intros fs baseHref config now m i group (filesPerGroup & Hrun & -> & _)%process_Ok Hi Hfiles.
  destruct (filesPerGroup_spec _ _ _ _ _ Hrun) as [Hkeys Hspec].
  rewrite <- Hkeys in Hi. apply list_lookup_fmap_Some in Hi as ([g files] & -> & Hi).
  exists (emitAssetGroup globToRegex baseHref (g, files)).
  split_and!; [by apply list_lookup_fmap_Some_2|done|].
  simpl in *. destruct files as [|f files]; [done|].
  destruct (proj1 (Hspec i g (f :: files) f Hi)) as (_ & Hm & _); [left|].
  unfold fileMatcherOf in Hm. by rewrite Hfiles in Hm.
Qed.

Lemma empty_files_match_nothing_witness :
  ∃ m, Sample.process (Sample.snapshot Sample.appFiles) "/"
         (Sample.config [Sample.assetGroup "none" []; Sample.assetGroup "app" ["/*.js"]]) 0
       = Ok m ∧
       ∃ out, Manifest.assetGroups m !! 0%nat = Some out ∧
              Manifest.name out = "none" ∧ Manifest.urls out = [].
Proof.
  eexists. split; [vm_compute; reflexivity|].
  exact (proj2 (proj2 (empty_files_match_nothing GlobModel.globToRegex
                         Sample.parseDurationToMs GlobModel.RegExp_test))
           (Sample.snapshot Sample.appFiles) "/"
           (Sample.config [Sample.assetGroup "none" []; Sample.assetGroup "app" ["/*.js"]]) 0
           _ 0%nat (Sample.assetGroup "none" [])
           ltac:(vm_compute; reflexivity) eq_refl eq_refl).
Defined.

(** * Further properties of the generator *)

(** ** Which pattern decides *)

Section DecidingPattern.

Context (RegExp_test : string → string → bool).

(** A pattern list matches exactly when some positive pattern matches and
    no negative pattern after it does. *)
Lemma matches_iff (file : string) (patterns : list CompiledPattern) :
  matches RegExp_test file patterns = true ↔
  ∃ (i : nat) p,
    patterns !! i = Some p ∧ positive p = true ∧ test RegExp_test (regex p) file = true ∧
    ∀ (j : nat) q, (i < j)%nat → patterns !! j = Some q → positive q = false →
      test RegExp_test (regex q) file = false.
Proof.
  induction patterns as [|p patterns IH] using rev_ind.
  - split; [done|]. intros (i & p & Hi & _). by rewrite lookup_nil in Hi.
  - rewrite matches_snoc. destruct (positive p) eqn:Hp.
    + rewrite orb_true_iff, IH. split.
      * intros [(i & p0 & Hi & Hpos & Htest & Hlater)|Htest].
        -- exists i, p0. split_and!; [|done..|].
           { apply lookup_snoc_Some. left. split; [by eapply lookup_lt_Some|done]. }
           intros j q Hij [[Hj Hq]|[-> <-]]%lookup_snoc_Some Hneg; [by eapply Hlater|congruence].
        -- exists (length patterns), p. split_and!; [|done..|].
           { apply lookup_snoc_Some. by right. }
           intros j q Hij [[Hj Hq]|[-> <-]]%lookup_snoc_Some Hneg; [lia|congruence].
      * intros (i & p0 & [[Hi Hp0]|[-> <-]]%lookup_snoc_Some & Hpos & Htest & Hlater);
          [left|by right].
        exists i, p0. split_and!; [done..|].
        intros j q Hij Hq Hneg. apply (Hlater j q Hij); [|done].
        apply lookup_snoc_Some. left. split; [by eapply lookup_lt_Some|done].
    + rewrite andb_true_iff, negb_true_iff, IH. split.
      * intros [(i & p0 & Hi & Hpos & Htest & Hlater) Hnot].
        exists i, p0. split_and!; [|done..|].
        { apply lookup_snoc_Some. left. split; [by eapply lookup_lt_Some|done]. }
        intros j q Hij [[Hj Hq]|[-> <-]]%lookup_snoc_Some Hneg; [by eapply Hlater|done].
      * intros (i & p0 & [[Hi Hp0]|[-> <-]]%lookup_snoc_Some & Hpos & Htest & Hlater);
          [|congruence].
        split.
        -- exists i, p0. split_and!; [done..|].
           intros j q Hij Hq Hneg. apply (Hlater j q Hij); [|done].
           apply lookup_snoc_Some. left. split; [by eapply lookup_lt_Some|done].
        -- apply (Hlater (length patterns) p Hi); [|done]. apply lookup_snoc_Some. by right.
Qed.

End DecidingPattern.

(** X1. [matches] answers [true] exactly when some positive pattern of
    the list matches the file and no negative pattern that comes after it
    in the list matches the file; negative patterns before it do not
    count. *)
Theorem matches_last_positive_decides (RegExp_test : string → string → bool)
    (file : string) (patterns : list CompiledPattern) :
  matches RegExp_test file patterns = true ↔
  ∃ (i : nat) p,
    patterns !! i = Some p ∧ positive p = true ∧ test RegExp_test (regex p) file = true ∧
    ∀ (j : nat) q, (i < j)%nat → patterns !! j = Some q → positive q = false →
      test RegExp_test (regex q) file = false.
Proof. apply matches_iff. Qed.

(** X2. The matcher of a glob list accepts a file exactly when some glob
    without a leading ["!"] matches it and no glob with a leading ["!"]
    that comes later in the list matches it once that one ["!"] is taken
    off. A list made of negated globs only accepts nothing. *)
Theorem globListToMatcher_accepts (globToRegex : string → bool → string)
    (RegExp_test : string → string → bool) (globs : list string) (file : string) :
  (globListToMatcher globToRegex RegExp_test globs file = true ↔
   ∃ (i : nat) glob,
     globs !! i = Some glob ∧ startsWith glob "!" = false ∧
     RegExp_test ("^" +:+ globToRegex glob false +:+ "$") file = true ∧
     ∀ (j : nat) negated, (i < j)%nat → globs !! j = Some negated →
       startsWith negated "!" = true →
       RegExp_test ("^" +:+ globToRegex (substr negated 1) false +:+ "$") file = false) ∧
  ((∀ glob, glob ∈ globs → startsWith glob "!" = true) →
   globListToMatcher globToRegex RegExp_test globs file = false).
Proof.
  unfold globListToMatcher. split.
  - rewrite matches_iff. split.
    + intros (i & p & Hi & Hpos & Htest & Hlater).
      apply list_lookup_fmap_Some in Hi as (glob & -> & Hi).
      destruct (startsWith glob "!") eqn:Hbang; [done|].
      exists i, glob. split_and!; [done..|].
      intros j negated Hij Hj Hneg.
      apply (Hlater j {| positive := false;
                         regex := new_RegExp ("^" +:+ globToRegex (substr negated 1) false
                                               +:+ "$") |} Hij); [|done].
      rewrite list_lookup_fmap, Hj. cbn [fmap option_fmap option_map]. by rewrite Hneg.
    + intros (i & glob & Hi & Hbang & Htest & Hlater).
      eexists i, _. split_and!.
      * rewrite list_lookup_fmap, Hi. reflexivity.
      * by rewrite Hbang.
      * by rewrite Hbang.
      * intros j q Hij Hj Hneg.
        apply list_lookup_fmap_Some in Hj as (negated & -> & Hj).
        destruct (startsWith negated "!") eqn:Hbang'; [|done].
        by apply (Hlater j negated).
  - intros Hall. apply matches_no_positive.
    intros p (glob & -> & Hglob)%list_elem_of_fmap. by rewrite (Hall glob Hglob).
Qed.

Lemma globListToMatcher_accepts_witness :
  globListToMatcher GlobModel.globToRegex GlobModel.RegExp_test
    ["!/**/*.map"; "!/**/*.txt"] "/main.js" = false.
Proof.
  apply (proj2 (globListToMatcher_accepts GlobModel.globToRegex GlobModel.RegExp_test
                  ["!/**/*.map"; "!/**/*.txt"] "/main.js")).
  intros glob Hglob. repeat (apply elem_of_cons in Hglob as [->|Hglob]; [reflexivity|]).
  by apply elem_of_nil in Hglob.
Defined.

(** ** More on [joinUrls] *)

(** X3. However the junction is written, with the slash at the end of the
    base, at the start of the relative part, at both or at neither, the
    joined URL is the same: the two parts with exactly one ["/"] between
    them. *)
Theorem joinUrls_junction (base relative : string) :
  ¬ Spec.ends_with_slash base → ¬ Spec.starts_with_slash relative →
  joinUrls base relative = base +:+ "/" +:+ relative ∧
  joinUrls (base +:+ "/") relative = base +:+ "/" +:+ relative ∧
  joinUrls base ("/" +:+ relative) = base +:+ "/" +:+ relative ∧
  joinUrls (base +:+ "/") ("/" +:+ relative) = base +:+ "/" +:+ relative.
Proof.
  intros Hbase Hrel.
  assert (endsWith base "/" = false) as Eb.
  { destruct (endsWith base "/") eqn:E; [by apply endsWith_slash in E|done]. }
  assert (startsWith relative "/" = false) as Er.
  { destruct (startsWith relative "/") eqn:E; [by apply startsWith_slash in E|done]. }
  assert (endsWith (base +:+ "/") "/" = true) as Eb' by (apply endsWith_iff; eauto).
  assert (startsWith ("/" +:+ relative) "/" = true) as Er' by (apply startsWith_iff; eauto).
  unfold joinUrls. rewrite Eb, Er, Eb', Er'. cbn [andb negb].
  split_and!; [done|by rewrite append_assoc|done|by rewrite append_assoc].
Qed.

Lemma joinUrls_junction_witness :
  joinUrls "/app" "main.js" = "/app/main.js" ∧
  joinUrls "/app/" "main.js" = "/app/main.js" ∧
  joinUrls "/app" "/main.js" = "/app/main.js" ∧
  joinUrls "/app/" "/main.js" = "/app/main.js".
Proof.
  apply (joinUrls_junction "/app" "main.js").
  - intros H. apply endsWith_slash in H. discriminate.
  - intros H. apply startsWith_slash in H. discriminate.
Defined.

(** X4. On paths that start with ["/"] joining with a base loses nothing:
    two such paths with the same joined URL are the same path, and with
    the base ["/"] the joined URL is the path itself. *)
Theorem joinUrls_absolute_paths (baseHref f1 f2 : string) :
  startsWith f1 "/" = true → startsWith f2 "/" = true →
  (joinUrls baseHref f1 = joinUrls baseHref f2 → f1 = f2) ∧
  joinUrls "/" f1 = f1.
Proof.
  intros H1 H2. split; [by apply joinUrls_inj|].
  unfold joinUrls. rewrite H1. apply startsWith_slash in H1 as [rest ->]. reflexivity.
Qed.

Lemma joinUrls_absolute_paths_witness : joinUrls "/" "/main.js" = "/main.js".
Proof. exact (proj2 (joinUrls_absolute_paths "/" "/main.js" "/main.js" eq_refl eq_refl)). Defined.

(** ** Which files the manifest lists *)

(** In a list with an element that passes a test there is a first one. *)
Lemma first_passing {A} (P : A → bool) (l : list A) (i : nat) (x : A) :
  l !! i = Some x → P x = true →
  ∃ (j : nat) y, l !! j = Some y ∧ P y = true ∧
    ∀ (k : nat) z, (k < j)%nat → l !! k = Some z → P z = false.
Proof.
  revert i. induction l as [|a l IH]; intros i Hi Hx; [by rewrite lookup_nil in Hi|].
  destruct (P a) eqn:Ha.
  - exists 0%nat, a. split_and!; [done..|]. intros k z Hk. lia.
  - destruct i as [|i]; simpl in Hi; [congruence|].
    destruct (IH i Hi Hx) as (j & y & Hj & Hy & Hfirst).
    exists (S j), y. split_and!; [done..|].
    intros [|k] z Hk Hz; simpl in Hz; [congruence|]. apply (Hfirst k); [lia|done].
Qed.

Section ListedFiles.

Context (globToRegex : string → bool → string).
Context (RegExp_test : string → string → bool).

(** The files of all groups together are the listed files that some group
    accepts. *)
Lemma filesPerGroup_union allFiles groups filesPerGroup f :
  assignFiles globToRegex RegExp_test allFiles groups ∅ [] = Ok filesPerGroup →
  f ∈ mjoin (filesPerGroup.*2) ↔
  f ∈ allFiles ∧ ∃ group, group ∈ groups ∧ fileMatcherOf globToRegex RegExp_test group f = true.
Proof.
  intros Hrun. destruct (filesPerGroup_spec _ _ _ _ _ Hrun) as [Hkeys Hspec]. split.
  - intros (files & Hf & Hfiles)%list_elem_of_join.
    apply list_elem_of_fmap in Hfiles as ([g l] & -> & Hentry).
    destruct (proj1 (list_elem_of_lookup _ _) Hentry) as [i Hi].
    destruct (proj1 (Hspec i g l f Hi) Hf) as (Hlisted & Hm & _).
    split; [done|]. exists g. split; [|done].
    rewrite <- Hkeys. apply list_elem_of_fmap. by exists (g, l).
  - intros [Hlisted (group & Hgroup & Hm)].
    (* the first group that accepts [f] has it *)
    rewrite <- Hkeys in Hgroup. apply list_elem_of_fmap in Hgroup as ([g l] & -> & Hentry).
    destruct (proj1 (list_elem_of_lookup _ _) Hentry) as [i Hi].
    destruct (first_passing (λ entry, fileMatcherOf globToRegex RegExp_test entry.1 f)
                filesPerGroup i (g, l) Hi Hm) as (j & [g1 l1] & Hj & Hg1 & Hfirst).
    apply list_elem_of_join. exists l1. split.
    + apply (Hspec j g1 l1 f Hj). split_and!; [done..|].
      intros k g0 l0 Hk Hk0. exact (Hfirst k (g0, l0) Hk Hk0).
    + apply list_elem_of_fmap. exists (g1, l1). split; [done|]. by eapply list_elem_of_lookup_2.
Qed.

End ListedFiles.

(** X5. What a manifest lists: a URL is in the urls of some emitted asset
    group exactly when it is the URL of a listed file that the globs of
    some group match, and every URL of a group is the URL of a listed file
    that this group's own globs match. *)
Theorem manifest_lists_matched_files (globToRegex : string → bool → string)
    (parseDurationToMs : string → result Z) (RegExp_test : string → string → bool)
    (fs : Filesystem) (baseHref : string) (config : Cfg.Config) (now : Z) (m : Manifest.t) :
  process globToRegex parseDurationToMs RegExp_test fs baseHref config now = Ok m →
  (∀ url,
     (∃ out, out ∈ Manifest.assetGroups m ∧ url ∈ Manifest.urls out) ↔
     ∃ f group,
       f ∈ fs_list fs ∧ group ∈ default [] (Cfg.assetGroups config) ∧
       fileMatcherOf globToRegex RegExp_test group f = true ∧ url = joinUrls baseHref f) ∧
  (∀ (i : nat) group out url,
     default [] (Cfg.assetGroups config) !! i = Some group →
     Manifest.assetGroups m !! i = Some out →
     url ∈ Manifest.urls out →
     ∃ f, f ∈ fs_list fs ∧ fileMatcherOf globToRegex RegExp_test group f = true ∧
          url = joinUrls baseHref f).
Proof.
  intros (filesPerGroup & Hrun & -> & _)%process_Ok. split.
  - intros url. rewrite emitted_urls. split.
    + intros (f & Hf & ->). rewrite sort_elem_of in Hf.
      apply (filesPerGroup_union _ _ _ _ _ _ Hrun) in Hf as (Hlisted & group & Hgroup & Hm).
      by exists f, group.
    + intros (f & group & Hlisted & Hgroup & Hm & ->). exists f. split; [|done].
      rewrite sort_elem_of. apply (filesPerGroup_union _ _ _ _ _ _ Hrun). eauto.
  - intros i group out url Hi Hout Hurl.
    destruct (filesPerGroup_spec _ _ _ _ _ Hrun) as [Hkeys Hspec].
    apply list_lookup_fmap_Some in Hout as ([g files] & -> & Hentry).
    assert (g = group) as ->.
    { rewrite <- Hkeys, list_lookup_fmap, Hentry in Hi. by injection Hi. }
    simpl in Hurl. apply list_elem_of_fmap in Hurl as (f & -> & Hf).
    destruct (proj1 (Hspec i group files f Hentry) Hf) as (Hlisted & Hm & _).
    by exists f.
Qed.

Lemma manifest_lists_matched_files_witness :
  ∃ m, Sample.process (Sample.snapshot Sample.appFiles) "/" Sample.appConfig 0 = Ok m ∧
       ∀ url, (∃ out, out ∈ Manifest.assetGroups m ∧ url ∈ Manifest.urls out) →
              url = "/main.js" ∨ url = "/vendor.js".
Proof.
  eexists. split; [vm_compute; reflexivity|].
  intros url Hurl.
  apply (proj1 (manifest_lists_matched_files GlobModel.globToRegex Sample.parseDurationToMs
                  GlobModel.RegExp_test (Sample.snapshot Sample.appFiles) "/"
                  Sample.appConfig 0 _ ltac:(vm_compute; reflexivity))) in Hurl
    as (f & group & Hf & Hgroup & Hm & ->).
  simpl in Hf. unfold Sample.appFiles in Hf.
  apply elem_of_cons in Hf as [->|Hf]; [by left|].
  apply elem_of_cons in Hf as [->|Hf]; [by right|].
  apply elem_of_cons in Hf as [->|Hf]; [|by apply elem_of_nil in Hf].
  apply list_elem_of_singleton in Hgroup as ->. vm_compute in Hm. discriminate.
Defined.

(** X6. When every listed path starts with ["/"], a listed file that the
    globs of no group match is in the urls of no emitted group and has no
    entry in the hash table. *)
Theorem unmatched_files_left_out (globToRegex : string → bool → string)
    (parseDurationToMs : string → result Z) (RegExp_test : string → string → bool)
    (fs : Filesystem) (baseHref : string) (config : Cfg.Config) (now : Z) (m : Manifest.t)
    (f : string) :
  (∀ f', f' ∈ fs_list fs → startsWith f' "/" = true) →
  process globToRegex parseDurationToMs RegExp_test fs baseHref config now = Ok m →
  f ∈ fs_list fs →
  (∀ group, group ∈ default [] (Cfg.assetGroups config) →
            fileMatcherOf globToRegex RegExp_test group f = false) →
  (∀ out, out ∈ Manifest.assetGroups m → joinUrls baseHref f ∉ Manifest.urls out) ∧
  JsObject.get (Manifest.hashTable m) (joinUrls baseHref f) = None.
Proof.
  intros Hslash (filesPerGroup & Hrun & -> & ->)%process_Ok Hf Hnone.
  assert (Hnot : ¬ ∃ f', f' ∈ sort (mjoin (filesPerGroup.*2))
                         ∧ joinUrls baseHref f = joinUrls baseHref f').
  { intros (f' & Hf' & Heq). rewrite sort_elem_of in Hf'.
    apply (filesPerGroup_union _ _ _ _ _ _ Hrun) in Hf' as (Hlisted & group & Hgroup & Hm).
    apply joinUrls_inj in Heq; [subst f'|by auto..].
    rewrite (Hnone group Hgroup) in Hm. done. }
  split.
  - intros out Hout Hurl. apply Hnot. apply (emitted_urls globToRegex). eauto.
  - destruct (JsObject.get _ _) as [value|] eqn:Hget; [|done].
    apply table_get_inv in Hget as (f' & Hf' & Heq & _). destruct Hnot. eauto.
Qed.

Lemma unmatched_files_left_out_witness :
  ∃ m, Sample.process (Sample.snapshot Sample.appFiles) "/" Sample.appConfig 0 = Ok m ∧
       JsObject.get (Manifest.hashTable m) "/readme.txt" = None.
Proof.
  eexists. split; [vm_compute; reflexivity|].
  refine (proj2 (unmatched_files_left_out GlobModel.globToRegex Sample.parseDurationToMs
                   GlobModel.RegExp_test (Sample.snapshot Sample.appFiles) "/"
                   Sample.appConfig 0 _ "/readme.txt" _ _ _ _)).
  - intros f Hf. simpl in Hf. unfold Sample.appFiles in Hf.
    repeat (apply elem_of_cons in Hf as [->|Hf]; [reflexivity|]).
    by apply elem_of_nil in Hf.
  - vm_compute; reflexivity.
  - simpl. unfold Sample.appFiles. right. right. left.
  - intros group Hgroup. apply list_elem_of_singleton in Hgroup as ->.
    vm_compute. reflexivity.
Defined.

(** ** What the manifest does not depend on *)

Section Independence.

Context (globToRegex : string → bool → string).
Context (RegExp_test : string → string → bool).

(** Dropping from the listing files that no group accepts does not change
    what the loop computes. *)
Lemma assignFiles_filter (keep : string → bool) allFiles groups seenMap filesPerGroup :
  (∀ f group, group ∈ groups →
              fileMatcherOf globToRegex RegExp_test group f = true → keep f = true) →
  assignFiles globToRegex RegExp_test (filter (λ f, Is_true (keep f)) allFiles)
              groups seenMap filesPerGroup
  = assignFiles globToRegex RegExp_test allFiles groups seenMap filesPerGroup.
Proof.
  revert seenMap filesPerGroup.
  induction groups as [|g groups IH]; intros seenMap filesPerGroup Hkeep; simpl; [done|].
  destruct (Cfg.versionedFiles (Cfg.resources g)); [done|].
  rewrite (list_filter_filter_l
             (λ file, Is_true (fileMatcherOf globToRegex RegExp_test g file))
             (λ f, Is_true (keep f))).
  - apply IH. intros f group Hgroup. apply Hkeep. by right.
  - intros f Hf%Is_true_true. apply Is_true_true, (Hkeep f g); [left|done].
Qed.

End Independence.

(** X7. The hash of a file that no group's globs match is never used:
    two snapshots with the same listing whose hashes agree on the listed
    files that some group matches give the same result. *)
Theorem hashes_of_unmatched_files_unused (globToRegex : string → bool → string)
    (parseDurationToMs : string → result Z) (RegExp_test : string → string → bool)
    (fs1 fs2 : Filesystem) (baseHref : string) (config : Cfg.Config) (now : Z) :
  fs_list fs1 = fs_list fs2 →
  (∀ f group,
     f ∈ fs_list fs1 → group ∈ default [] (Cfg.assetGroups config) →
     fileMatcherOf globToRegex RegExp_test group f = true →
     fs_hash fs1 f = fs_hash fs2 f) →
  process globToRegex parseDurationToMs RegExp_test fs1 baseHref config now
  = process globToRegex parseDurationToMs RegExp_test fs2 baseHref config now.
Proof.
  intros Hlist Hhash. unfold process, process_run, processAssetGroups. rewrite <- Hlist.
  destruct (assignFiles _ _ _ _ _ _) as [filesPerGroup|e] eqn:Hrun; [|done].
  assert ((λ file, fs_hash fs1 file) <$> sort (mjoin (filesPerGroup.*2))
          = (λ file, fs_hash fs2 file) <$> sort (mjoin (filesPerGroup.*2))) as ->; [|done].
  apply Forall_fmap_ext_1, Forall_forall. intros f Hf. rewrite sort_elem_of in Hf.
  apply (filesPerGroup_union _ _ _ _ _ _ Hrun) in Hf as (Hlisted & group & Hgroup & Hm).
  by apply (Hhash f group).
Qed.

Lemma hashes_of_unmatched_files_unused_witness :
  Sample.process (Sample.snapshot Sample.appFiles) "/" Sample.appConfig 0
  = Sample.process
      {| fs_list := Sample.appFiles;
         fs_hash := λ file, if String.eqb file "/readme.txt" then "" else "sha1-of:" +:+ file |}
      "/" Sample.appConfig 0.
Proof.
  apply hashes_of_unmatched_files_unused; [done|].
  intros f group Hf Hgroup Hm. simpl.
  destruct (String.eqb_spec f "/readme.txt") as [->|_]; [|done].
  apply list_elem_of_singleton in Hgroup as ->. vm_compute in Hm. discriminate.
Defined.

(** X8. Listed files that no group's globs match do not matter: taking
    them out of the listing, all or some of them, leaves the result of
    [process] as it is. *)
Theorem unmatched_files_do_not_matter (globToRegex : string → bool → string)
    (parseDurationToMs : string → result Z) (RegExp_test : string → string → bool)
    (fs : Filesystem) (baseHref : string) (config : Cfg.Config) (now : Z)
    (keep : string → bool) :
  (∀ f group,
     group ∈ default [] (Cfg.assetGroups config) →
     fileMatcherOf globToRegex RegExp_test group f = true → keep f = true) →
  process globToRegex parseDurationToMs RegExp_test
          {| fs_list := filter (λ f, Is_true (keep f)) (fs_list fs); fs_hash := fs_hash fs |}
          baseHref config now
  = process globToRegex parseDurationToMs RegExp_test fs baseHref config now.
Proof.
  intros Hkeep. unfold process, process_run, processAssetGroups. simpl.
  by rewrite assignFiles_filter.
Qed.

Lemma unmatched_files_do_not_matter_witness :
  Sample.process (Sample.snapshot ["/main.js"; "/vendor.js"]) "/" Sample.appConfig 0
  = Sample.process (Sample.snapshot Sample.appFiles) "/" Sample.appConfig 0.
Proof.
  apply (unmatched_files_do_not_matter GlobModel.globToRegex Sample.parseDurationToMs
           GlobModel.RegExp_test (Sample.snapshot Sample.appFiles) "/" Sample.appConfig 0
           (λ f, GlobModel.RegExp_test "^/[^/]*\.js$" f)).
  intros f group Hgroup Hm. apply list_elem_of_singleton in Hgroup as ->.
  unfold fileMatcherOf, globListToMatcher, matches in Hm. simpl in Hm. exact Hm.
Defined.

(** ** Failures and data groups *)

Section Outcomes.

Context (globToRegex : string → bool → string).
Context (parseDurationToMs : string → result Z).
Context (RegExp_test : string → string → bool).




End Outcomes.



Section DataGroups.

Context (globToRegex : string → bool → string).
Context (parseDurationToMs : string → result Z).


End DataGroups.



(** ** The emitted asset groups *)



(** ** Order and multiplicity of the urls *)

Section Order.

Lemma compare_refl (s : string) : String.compare s s = Eq.
Proof.
  induction s as [|c s IH]; simpl; [done|].
  unfold Ascii.compare. by rewrite N.compare_refl.
Qed.

Lemma compare_append (a x y : string) :
  String.compare (a +:+ x) (a +:+ y) = String.compare x y.
Proof.
  induction a as [|c a IH]; [done|]. rewrite !append_cons. simpl.
  unfold Ascii.compare. by rewrite N.compare_refl.
Qed.

(** Joining with a base keeps the order of paths that start with ["/"]. *)
Lemma joinUrls_compare (baseHref f1 f2 : string) :
  startsWith f1 "/" = true → startsWith f2 "/" = true →
  String.compare (joinUrls baseHref f1) (joinUrls baseHref f2) = String.compare f1 f2.
Proof.
  intros H1 H2. unfold joinUrls. rewrite H1, H2.
  apply startsWith_slash in H1 as [r1 ->]. apply startsWith_slash in H2 as [r2 ->].
  destruct (endsWith baseHref "/"); cbn [andb negb substr].
  - rewrite ?append_nil_l, compare_append.
    symmetry. apply (compare_append "/").
  - by rewrite compare_append.
Qed.

Lemma StronglySorted_fmap_on {A B} (f : A → B) (R1 : relation A) (R2 : relation B)
    (l : list A) :
  (∀ x y, x ∈ l → y ∈ l → R1 x y → R2 (f x) (f y)) →
  StronglySorted R1 l → StronglySorted R2 (f <$> l).
Proof.
  intros Hmono Hsorted. induction Hsorted as [|x l Hsorted IH Hall]; csimpl; constructor.
  - apply IH. intros y z Hy Hz. apply Hmono; by right.
  - apply Forall_fmap, Forall_forall. intros y Hy. simpl.
    apply Hmono; [left|by right|]. by apply (proj1 (Forall_forall _ _) Hall).
Qed.

Lemma NoDup_mjoin {A} (ls : list (list A)) :
  (∀ l, l ∈ ls → NoDup l) →
  (∀ (i j : nat) li lj x, i ≠ j → ls !! i = Some li → ls !! j = Some lj → x ∈ li → x ∉ lj) →
  NoDup (mjoin ls).
Proof.
  induction ls as [|l ls IH]; intros Heach Hdisjoint; simpl; [constructor|].
  apply NoDup_app. split_and!.
  - apply Heach. left.
  - intros x Hx (l' & Hx' & Hl')%list_elem_of_join.
    destruct (proj1 (list_elem_of_lookup _ _) Hl') as [j Hj].
    by apply (Hdisjoint 0%nat (S j) l l' x).
  - apply IH.
    + intros l' Hl'. apply Heach. by right.
    + intros i j li lj x Hij Hi Hj. apply (Hdisjoint (S i) (S j)); [lia|done..].
Qed.

Lemma mjoin_urls (globToRegex : string → bool → string) baseHref
    (filesPerGroup : FilesPerGroup) :
  mjoin (Manifest.urls <$> (emitAssetGroup globToRegex baseHref <$> filesPerGroup))
  = (λ url, joinUrls baseHref url) <$> mjoin (filesPerGroup.*2).
Proof.
  induction filesPerGroup as [|[g files] filesPerGroup IH]; csimpl; [done|].
  by rewrite IH, fmap_app.
Qed.

Context (globToRegex : string → bool → string).
Context (RegExp_test : string → string → bool).

(** A property of every sorted selection of the listed files holds of the
    files of every group. *)
Lemma assignFiles_each (Q : list string → Prop) allFiles groups seenMap filesPerGroup out :
  (∀ (keep : string → Prop) (dec : ∀ x, Decision (keep x)), Q (sort (filter keep allFiles))) →
  Forall Q (filesPerGroup.*2) →
  assignFiles globToRegex RegExp_test allFiles groups seenMap filesPerGroup = Ok out →
  Forall Q (out.*2).
Proof.
  intros HQ. revert seenMap filesPerGroup.
  induction groups as [|g groups IH]; intros seenMap filesPerGroup Hacc Hrun; simpl in Hrun.
  - by injection Hrun as <-.
  - destruct (Cfg.versionedFiles (Cfg.resources g)); [done|].
    apply IH in Hrun; [done|]. rewrite fmap_app. apply Forall_app. split; [done|].
    constructor; [|constructor]. simpl. rewrite list_filter_filter. apply HQ.
Qed.

End Order.

(** X12. When every listed path starts with ["/"], the urls of every
    emitted asset group are in ascending order, and in strictly ascending
    order, so without repetition, when the listing names no file twice. *)
Theorem urls_sorted (globToRegex : string → bool → string)
    (parseDurationToMs : string → result Z) (RegExp_test : string → string → bool)
    (fs : Filesystem) (baseHref : string) (config : Cfg.Config) (now : Z) (m : Manifest.t) :
  (∀ f, f ∈ fs_list fs → startsWith f "/" = true) →
  process globToRegex parseDurationToMs RegExp_test fs baseHref config now = Ok m →
  ∀ out, out ∈ Manifest.assetGroups m →
    StronglySorted (λ a b, String.leb a b = true) (Manifest.urls out) ∧
    (NoDup (fs_list fs) →
     StronglySorted (λ a b, String.ltb a b = true) (Manifest.urls out)).
Proof.
  intros Hslash (filesPerGroup & Hrun & -> & _)%process_Ok out
         ([g files] & -> & Hentry)%list_elem_of_fmap.
  assert (Hfiles : files ∈ filesPerGroup.*2).
  { apply list_elem_of_fmap. by exists (g, files). }
  assert (Habs : ∀ f, f ∈ files → startsWith f "/" = true).
  { intros f Hf. apply Hslash.
    apply (filesPerGroup_listed _ _ _ _ _ f Hrun), list_elem_of_join. eauto. }
  assert (Hsorted : StronglySorted String.le files).
  { eapply (proj1 (Forall_forall _ _)); [|exact Hfiles].
    apply (assignFiles_each globToRegex RegExp_test (StronglySorted String.le) _ _ ∅ [] _
             (λ _ _, sort_sorted _) (Forall_nil_2 _) Hrun). }
  simpl. split.
  - apply (StronglySorted_fmap_on _ String.le); [|done].
    intros x y Hx Hy Hle. apply Is_true_true. unfold String.le, String.leb in *.
    by rewrite joinUrls_compare by auto.
  - intros Hnodup.
    assert (NoDup files) as Hnd.
    { eapply (proj1 (Forall_forall _ _)); [|exact Hfiles].
      refine (assignFiles_each globToRegex RegExp_test NoDup _ _ ∅ [] _ _
                (Forall_nil_2 _) Hrun).
      intros keep dec. by apply sort_NoDup, NoDup_filter. }
    apply (StronglySorted_fmap_on _ (λ a b, String.ltb a b = true));
      [|by apply sorted_NoDup_strict].
    intros x y Hx Hy Hlt. unfold String.ltb in *. by rewrite joinUrls_compare by auto.
Qed.

Lemma urls_sorted_witness :
  ∃ m, Sample.process (Sample.snapshot ["/vendor.js"; "/readme.txt"; "/main.js"]) "/app/"
                      (Sample.config [Sample.assetGroup "all" ["/**"]]) 0 = Ok m ∧
       Manifest.urls <$> Manifest.assetGroups m
       = [["/app/main.js"; "/app/readme.txt"; "/app/vendor.js"]] ∧
       ∀ out, out ∈ Manifest.assetGroups m →
              StronglySorted (λ a b, String.leb a b = true) (Manifest.urls out).
Proof.
  eexists. split; [vm_compute; reflexivity|]. split; [vm_compute; reflexivity|].
  intros out Hout.
  refine (proj1 (urls_sorted GlobModel.globToRegex Sample.parseDurationToMs
                   GlobModel.RegExp_test
                   (Sample.snapshot ["/vendor.js"; "/readme.txt"; "/main.js"]) "/app/"
                   (Sample.config [Sample.assetGroup "all" ["/**"]]) 0 _ _ _ out Hout)).
  - intros f Hf. simpl in Hf.
    repeat (apply elem_of_cons in Hf as [->|Hf]; [reflexivity|]).
    by apply elem_of_nil in Hf.
  - vm_compute; reflexivity.
Defined.

(** X13. When the listing names no file twice and every listed path
    starts with ["/"], no URL occurs twice in the urls of the manifest, in
    one group or across groups, and the keys of the hash table are these
    urls, sorted: the table has as many entries as the manifest has
    urls. *)
Theorem hashTable_keys_are_the_urls (globToRegex : string → bool → string)
    (parseDurationToMs : string → result Z) (RegExp_test : string → string → bool)
    (fs : Filesystem) (baseHref : string) (config : Cfg.Config) (now : Z) (m : Manifest.t) :
  NoDup (fs_list fs) →
  (∀ f, f ∈ fs_list fs → startsWith f "/" = true) →
  process globToRegex parseDurationToMs RegExp_test fs baseHref config now = Ok m →
  NoDup (mjoin (Manifest.urls <$> Manifest.assetGroups m)) ∧
  JsObject.keys (Manifest.hashTable m)
  = sort (mjoin (Manifest.urls <$> Manifest.assetGroups m)) ∧
  length (Manifest.hashTable m) = length (mjoin (Manifest.urls <$> Manifest.assetGroups m)).
Proof.
  intros Hnodup Hslash (filesPerGroup & Hrun & -> & ->)%process_Ok.
  destruct (filesPerGroup_spec _ _ _ _ _ Hrun) as [_ Hspec].
  rewrite mjoin_urls.
  assert (Hfiles : NoDup (mjoin (filesPerGroup.*2))).
  { apply NoDup_mjoin.
    - apply Forall_forall.
      refine (assignFiles_each globToRegex RegExp_test NoDup _ _ ∅ [] _ _
                (Forall_nil_2 _) Hrun).
      intros keep dec. by apply sort_NoDup, NoDup_filter.
    - assert (Hlt : ∀ (i j : nat) li lj x, (i < j)%nat →
                (filesPerGroup.*2) !! i = Some li → (filesPerGroup.*2) !! j = Some lj →
                x ∈ li → x ∉ lj).
      { intros i j li lj x Hij ([gi li'] & -> & Hi)%list_lookup_fmap_Some
               ([gj lj'] & -> & Hj)%list_lookup_fmap_Some Hxi Hxj. simpl in *.
        destruct (proj1 (Hspec i gi li' x Hi) Hxi) as (_ & Hmi & _).
        destruct (proj1 (Hspec j gj lj' x Hj) Hxj) as (_ & _ & Hearlier).
        rewrite (Hearlier i gi li' Hij Hi) in Hmi. done. }
      intros i j li lj x Hij Hi Hj Hxi Hxj.
      destruct (decide (i < j)%nat).
      + by apply (Hlt i j li lj x).
      + apply (Hlt j i lj li x); [lia|done..]. }
  assert (Hurls : NoDup ((λ url, joinUrls baseHref url) <$> mjoin (filesPerGroup.*2))).
  { apply NoDup_fmap_2_strong; [|done].
    intros x y Hx Hy. apply joinUrls_inj; apply Hslash;
      by apply (filesPerGroup_listed _ _ _ _ _ _ Hrun). }
  assert (Hkeys : JsObject.keys
                    (orderedHashTable baseHref (fs_hash fs) (sort (mjoin (filesPerGroup.*2))))
                  = sort ((λ url, joinUrls baseHref url) <$> mjoin (filesPerGroup.*2))).
  { rewrite table_keys. apply sort_order_independent.
    apply NoDup_Permutation; [apply unordered_keys_NoDup|done|].
    intros key. unfold filledHashTable. rewrite setAll_keys, <- list_fmap_compose.
    rewrite !list_elem_of_fmap. setoid_rewrite sort_elem_of. simpl.
    split; [intros [[]%elem_of_nil|?]; done|by right]. }
  split_and!; [done|done|].
  rewrite <- (length_fmap fst (orderedHashTable _ _ _)).
  change (fst <$> ?o) with (JsObject.keys o). rewrite Hkeys.
  apply Permutation_length, sort_Permutation.
Qed.

Lemma hashTable_keys_are_the_urls_witness :
  ∃ m, Sample.process (Sample.snapshot ["/vendor.js"; "/readme.txt"; "/main.js"]) "/app/"
                      (Sample.config [Sample.assetGroup "scripts" ["/*.js"];
                                      Sample.assetGroup "rest" ["/**"]]) 0 = Ok m ∧
       Manifest.urls <$> Manifest.assetGroups m
       = [["/app/main.js"; "/app/vendor.js"]; ["/app/readme.txt"]] ∧
       JsObject.keys (Manifest.hashTable m)
       = sort (mjoin (Manifest.urls <$> Manifest.assetGroups m)).
Proof.
  eexists. split; [vm_compute; reflexivity|]. split; [vm_compute; reflexivity|].
  refine (proj1 (proj2 (hashTable_keys_are_the_urls GlobModel.globToRegex
                          Sample.parseDurationToMs GlobModel.RegExp_test
                          (Sample.snapshot ["/vendor.js"; "/readme.txt"; "/main.js"]) "/app/"
                          (Sample.config [Sample.assetGroup "scripts" ["/*.js"];
                                          Sample.assetGroup "rest" ["/**"]]) 0 _ _ _ _))).
  - simpl. apply (bool_decide_unpack _). vm_compute. exact I.
  - intros f Hf. simpl in Hf.
    repeat (apply elem_of_cons in Hf as [->|Hf]; [reflexivity|]).
    by apply elem_of_nil in Hf.
  - vm_compute; reflexivity.
Defined.

(** ** [withOrderedKeys] on any object *)

Section OrderedKeys.

Context {V : Type}.
Implicit Types (obj : JsObject.t V).





End OrderedKeys.



(** ** Groups that get no file *)

(** X15. An asset group is emitted with an empty urls list exactly when
    every listed file its globs match is also matched by the globs of a
    group declared before it. *)
Theorem group_empty_iff_shadowed (globToRegex : string → bool → string)
    (parseDurationToMs : string → result Z) (RegExp_test : string → string → bool)
    (fs : Filesystem) (baseHref : string) (config : Cfg.Config) (now : Z) (m : Manifest.t)
    (i : nat) (group : Cfg.AssetGroup) (out : Manifest.AssetGroup) :
  process globToRegex parseDurationToMs RegExp_test fs baseHref config now = Ok m →
  default [] (Cfg.assetGroups config) !! i = Some group →
  Manifest.assetGroups m !! i = Some out →
  Manifest.urls out = [] ↔
  ∀ f, f ∈ fs_list fs → fileMatcherOf globToRegex RegExp_test group f = true →
       ∃ (k : nat) earlier,
         (k < i)%nat ∧ default [] (Cfg.assetGroups config) !! k = Some earlier ∧
         fileMatcherOf globToRegex RegExp_test earlier f = true.
Proof.
  intros (filesPerGroup & Hrun & -> & _)%process_Ok Hi Hout.
  destruct (filesPerGroup_spec _ _ _ _ _ Hrun) as [Hkeys Hspec].
  apply list_lookup_fmap_Some in Hout as ([g files] & -> & Hentry).
  assert (g = group) as ->.
  { rewrite <- Hkeys, list_lookup_fmap, Hentry in Hi. by injection Hi. }
  simpl. split.
  - intros ->%fmap_nil_inv f Hf Hm.
    destruct (decide (Exists (λ entry, fileMatcherOf globToRegex RegExp_test entry.1 f = true)
                             (take i filesPerGroup))) as [Hsome|Hnone].
    + apply Exists_exists in Hsome as ([g0 l0] & Hin & Hg0).
      destruct (proj1 (list_elem_of_lookup _ _) Hin) as [k Hk].
      apply lookup_take_Some in Hk as [Hk Hlt].
      exists k, g0. split_and!; [done| |done].
      by rewrite <- Hkeys, list_lookup_fmap, Hk.
    + exfalso. apply (not_elem_of_nil f), (Hspec i group [] f Hentry).
      split_and!; [done..|]. intros k g0 l0 Hk Hk0.
      destruct (fileMatcherOf globToRegex RegExp_test g0 f) eqn:E; [|done].
      destruct Hnone. apply Exists_exists. exists (g0, l0). split; [|done].
      apply list_elem_of_lookup. exists k. by apply lookup_take_Some.
  - intros Hshadowed. destruct files as [|f files]; [done|]. exfalso.
    destruct (proj1 (Hspec i group (f :: files) f Hentry)) as (Hlisted & Hm & Hearlier); [left|].
    destruct (Hshadowed f Hlisted Hm) as (k & earlier & Hk & Hlook & Hmatch).
    rewrite <- Hkeys in Hlook. apply list_lookup_fmap_Some in Hlook as ([g0 l0] & -> & Hk0).
    simpl in Hmatch. rewrite (Hearlier k g0 l0 Hk Hk0) in Hmatch. done.
Qed.

Lemma group_empty_iff_shadowed_witness :
  ∃ m out, Sample.process (Sample.snapshot ["/a"]) "/" Sample.threeGroups 0 = Ok m ∧
           Manifest.assetGroups m !! 1%nat = Some out ∧ Manifest.urls out = [].
Proof.
  eexists _, _. split; [vm_compute; reflexivity|]. split; [vm_compute; reflexivity|].
  apply (proj2 (group_empty_iff_shadowed GlobModel.globToRegex Sample.parseDurationToMs
                  GlobModel.RegExp_test (Sample.snapshot ["/a"]) "/" Sample.threeGroups 0
                  _ 1%nat (Sample.assetGroup "second" ["/**"]) _
                  ltac:(vm_compute; reflexivity) eq_refl ltac:(vm_compute; reflexivity))).
  intros f Hf Hm. exists 0%nat, (Sample.assetGroup "first" ["/**"]).
  split_and!; [lia|done|exact Hm].
Defined.

(** ** Navigation URLs and the base *)

Section NavigationFacts.

Context (globToRegex : string → bool → string).

Lemma urlToRegex_absolute (url baseHref : string) (literalQuestionMark : bool) :
  Spec.starts_with_slash url ∨ Spec.contains url "://" →
  urlToRegex globToRegex url baseHref literalQuestionMark = globToRegex url literalQuestionMark.
Proof.
  unfold urlToRegex. intros [Hslash%startsWith_slash|Hscheme].
  - by rewrite Hslash.
  - destruct (Z.eqb_spec (indexOf url "://") (-1)) as [Hidx|_].
    + by apply indexOf_not_found in Hidx.
    + by rewrite andb_false_r.
Qed.

End NavigationFacts.

(** X16. Navigation URLs that start with ["/"] or carry a scheme are not
    put under the base: when every entry of [navigationUrls], with its
    leading ["!"] taken off, starts with ["/"] or contains ["://"], and
    also when [navigationUrls] is left out and the defaults are used, the
    compiled list is the same for every [baseHref]. *)
Theorem navigationUrls_ignore_baseHref (globToRegex : string → bool → string)
    (baseHref1 baseHref2 : string) (urls : option (list string)) :
  (∀ entries url,
     urls = Some entries → url ∈ entries →
     Spec.starts_with_slash (if startsWith url "!" then substr url 1 else url) ∨
     Spec.contains (if startsWith url "!" then substr url 1 else url) "://") →
  processNavigationUrls globToRegex baseHref1 urls
  = processNavigationUrls globToRegex baseHref2 urls.
Proof.
  intros Habsolute. destruct urls as [entries|]; [|reflexivity].
  unfold processNavigationUrls. cbn [default].
  apply Forall_fmap_ext_1, Forall_forall. intros url Hurl. cbv beta zeta.
  specialize (Habsolute entries url eq_refl Hurl).
  destruct (startsWith url "!"); cbn [negb] in *;
    by rewrite (urlToRegex_absolute _ _ baseHref1), (urlToRegex_absolute _ _ baseHref2).
Qed.

Lemma navigationUrls_ignore_baseHref_witness :
  processNavigationUrls GlobModel.globToRegex "/app/" (Some ["/**"; "!/api/**"])
  = processNavigationUrls GlobModel.globToRegex "/" (Some ["/**"; "!/api/**"]).
Proof.
  apply navigationUrls_ignore_baseHref. intros entries url [= <-] Hurl.
  apply elem_of_cons in Hurl as [->|Hurl]; [left; by exists "**"|].
  apply list_elem_of_singleton in Hurl as ->. left. by exists "api/**".
Defined.

(** * Registration of the service worker *)

Section SplitFacts.

Lemma contains_colon_cons (c : ascii) (s : string) :
  Spec.contains (String c s) ":" ↔ c = ":"%char ∨ Spec.contains s ":".
Proof.
  rewrite contains_cons. cbn [startsWith].
  destruct (Ascii.eqb_spec ":" c) as [<-|Hne]; [tauto|].
  split; intros [?|?]; try done; by right.
Qed.

(** The first piece of a split is the text before the first separator. *)
Lemma split_first (name rest : string) :
  ¬ Spec.contains name ":" →
  rest = "" ∨ (∃ more, rest = ":" +:+ more) →
  ∃ args, SwModule.split (name +:+ rest) ":" = name :: args ∧
          (rest = "" → args = []) ∧
          (∀ more, rest = ":" +:+ more → args = SwModule.split more ":").
Proof.
  intros Hname Hrest. induction name as [|c name IH].
  - rewrite append_nil_l. destruct Hrest as [->|[more ->]].
    + exists []. split_and!; [done..|]. intros more Heq.
      change (EmptyString = String ":" more) in Heq. discriminate.
    + exists (SwModule.split more ":").
      change (":" +:+ more) with (String ":" more). split_and!; [done|discriminate|].
      intros more' Heq. change (String ":" more = String ":" more') in Heq. congruence.
  - rewrite contains_colon_cons in Hname.
    destruct IH as (args & Hsplit & Hnil & Hmore); [tauto|].
    exists args. split_and!; [|done..].
    rewrite append_cons. cbn [SwModule.split].
    destruct (Ascii.eqb_spec c ":") as [->|_]; [tauto|]. by rewrite Hsplit.
Qed.

End SplitFacts.

(** X17. Whether the initializer does anything is decided before the
    registration strategy is looked at. Outside a browser, in a browser
    without service workers, or with [enabled] set to [false], it performs
    no effect and does not throw, whatever the strategy says; these are the
    cases in which [ngswCommChannelFactory] gives the channel no service
    worker container. In every other case the first thing it does is to
    add the [controllerchange] listener. *)
Theorem initializer_gate (Number : Type) (ToNumber : string → Number)
    (falsy : Number → bool) (zero : Number)
    (platform : SwModule.Platform) (script : string)
    (options : SwModule.SwRegistrationOptions) :
  (SwModule.ngswCommChannelFactory options platform = false →
   SwModule.initializer Number ToNumber falsy zero platform script options = ([], Ok ())) ∧
  (SwModule.ngswCommChannelFactory options platform = true →
   ∃ effects outcome,
     SwModule.initializer Number ToNumber falsy zero platform script options
     = (SwModule.AddControllerChangeListener Number :: effects, outcome)).
Proof.
  unfold SwModule.ngswCommChannelFactory, SwModule.initializer, SwModule.enabledIsNotFalse.
  destruct platform as [|[]]; destruct (SwModule.enabled options) as [[]|];
    (split; [try done|try done]); intros _; cbn [andb negb];
    repeat case_match; by eexists _, _.
Qed.

Lemma initializer_gate_witness :
  SwModule.initializer Z (λ _, 0) (Z.eqb 0) 0 (SwModule.Browser true) "ngsw-worker.js"
    {| SwModule.enabled := Some false; SwModule.scope := None;
       SwModule.registrationStrategy := Some (SwModule.Named "noSuchStrategy") |}
  = ([], Ok ()).
Proof. by apply initializer_gate. Defined.

(** X18. When the initializer goes ahead with a strategy given as text,
    the text before the first [":"] decides, and what follows is ignored
    for [registerImmediately] and [registerWhenStable]. Any other name but
    [registerWithDelay] makes the initializer throw, after the
    [controllerchange] listener was added and before anything is
    subscribed, with a message that ends in the whole text. *)
Theorem strategy_name_decides (Number : Type) (ToNumber : string → Number)
    (falsy : Number → bool) (zero : Number) (script name rest : string)
    (options : SwModule.SwRegistrationOptions) :
  SwModule.enabled options ≠ Some false →
  SwModule.registrationStrategy options = Some (SwModule.Named (name +:+ rest)) →
  name +:+ rest ≠ "" →
  ¬ Spec.contains name ":" →
  rest = "" ∨ (∃ more, rest = ":" +:+ more) →
  (name = "registerImmediately" →
   SwModule.initializer Number ToNumber falsy zero (SwModule.Browser true) script options
   = ([SwModule.AddControllerChangeListener Number;
       SwModule.SubscribeOnce Number (SwModule.Immediately Number) script
                              (SwModule.scope options)], Ok ())) ∧
  (name = "registerWhenStable" →
   SwModule.initializer Number ToNumber falsy zero (SwModule.Browser true) script options
   = ([SwModule.AddControllerChangeListener Number; SwModule.GetApplicationRef Number;
       SwModule.SubscribeOnce Number (SwModule.WhenStable Number) script
                              (SwModule.scope options)], Ok ())) ∧
  (name ≠ "registerImmediately" → name ≠ "registerWithDelay" →
   name ≠ "registerWhenStable" →
   SwModule.initializer Number ToNumber falsy zero (SwModule.Browser true) script options
   = ([SwModule.AddControllerChangeListener Number],
      Err ("Unknown ServiceWorker registration strategy: " +:+ name +:+ rest))).
Proof.
  intros Henabled Hstrategy Htext Hname Hrest.
  destruct (split_first name rest Hname Hrest) as (args & Hsplit & _).
  assert (SwModule.enabledIsNotFalse options = true) as Hgate.
  { unfold SwModule.enabledIsNotFalse. by destruct (SwModule.enabled options) as [[]|]. }
  unfold SwModule.initializer. rewrite Hgate, Hstrategy. cbn [andb negb].
  replace (match name +:+ rest with
           | EmptyString => "registerWhenStable"
           | String _ _ => name +:+ rest
           end) with (name +:+ rest) by (by destruct (name +:+ rest)).
  rewrite Hsplit. split_and!.
  - by intros ->.
  - by intros ->.
  - intros H1 H2 H3.
    destruct (String.eqb_spec name "registerImmediately"); [done|].
    destruct (String.eqb_spec name "registerWithDelay"); [done|].
    by destruct (String.eqb_spec name "registerWhenStable").
Qed.

Lemma strategy_name_decides_witness :
  SwModule.initializer Z (λ _, 0) (Z.eqb 0) 0 (SwModule.Browser true) "ngsw-worker.js"
    {| SwModule.enabled := None; SwModule.scope := Some "/app/";
       SwModule.registrationStrategy := Some (SwModule.Named "registerLater:5000") |}
  = ([SwModule.AddControllerChangeListener Z],
     Err "Unknown ServiceWorker registration strategy: registerLater:5000").
Proof.
  apply (proj2 (proj2 (strategy_name_decides Z (λ _, 0) (Z.eqb 0) 0 "ngsw-worker.js"
                         "registerLater" ":5000"
                         {| SwModule.enabled := None; SwModule.scope := Some "/app/";
                            SwModule.registrationStrategy :=
                              Some (SwModule.Named "registerLater:5000") |}
                         ltac:(done) eq_refl
                         ltac:(intros H; vm_compute in H; discriminate)
                         ltac:(intros H; apply indexOf_not_found in H; [done|reflexivity])
                         ltac:(right; by exists "5000")))); done.
Defined.

(** X19. The delay of [registerWithDelay]: without a timeout the delay is
    [0]; with one, it is the number of the text between the first and the
    second [":"], or [0] when that number is falsy ([0] or [NaN]), and
    what follows a second [":"] is ignored. *)
Theorem registerWithDelay_timeout (Number : Type) (ToNumber : string → Number)
    (falsy : Number → bool) (zero : Number) (script : string)
    (options : SwModule.SwRegistrationOptions) :
  SwModule.enabled options ≠ Some false →
  (SwModule.registrationStrategy options = Some (SwModule.Named "registerWithDelay") →
   SwModule.initializer Number ToNumber falsy zero (SwModule.Browser true) script options
   = ([SwModule.AddControllerChangeListener Number;
       SwModule.SubscribeOnce Number (SwModule.AfterDelay Number zero) script
                              (SwModule.scope options)], Ok ())) ∧
  (∀ timeout rest,
     SwModule.registrationStrategy options
     = Some (SwModule.Named ("registerWithDelay:" +:+ timeout +:+ rest)) →
     ¬ Spec.contains timeout ":" →
     rest = "" ∨ (∃ more, rest = ":" +:+ more) →
     SwModule.initializer Number ToNumber falsy zero (SwModule.Browser true) script options
     = ([SwModule.AddControllerChangeListener Number;
         SwModule.SubscribeOnce Number
           (SwModule.AfterDelay Number
              (if falsy (ToNumber timeout) then zero else ToNumber timeout))
           script (SwModule.scope options)], Ok ())).
Proof.
  intros Henabled.
  assert (SwModule.enabledIsNotFalse options = true) as Hgate.
  { unfold SwModule.enabledIsNotFalse. by destruct (SwModule.enabled options) as [[]|]. }
  unfold SwModule.initializer. rewrite Hgate. cbn [andb negb]. split.
  - by intros ->.
  - intros timeout rest -> Htimeout Hrest.
    destruct (split_first timeout rest Htimeout Hrest) as (args & Hsplit & _).
    destruct (split_first "registerWithDelay" (":" +:+ timeout +:+ rest))
      as (args' & Hsplit' & _ & Hargs); [|by eauto|].
    { intros H. apply indexOf_not_found in H; [done|reflexivity]. }
    rewrite (Hargs _ eq_refl), Hsplit in Hsplit'.
    change (match "registerWithDelay:" +:+ timeout +:+ rest with
            | EmptyString => "registerWhenStable"
            | String _ _ => "registerWithDelay:" +:+ timeout +:+ rest
            end) with ("registerWithDelay" +:+ ":" +:+ timeout +:+ rest).
    by rewrite Hsplit'.
Qed.

Lemma registerWithDelay_timeout_witness :
  SwModule.initializer Z (λ s, if String.eqb s "5000" then 5000 else 0) (Z.eqb 0) 0
    (SwModule.Browser true) "ngsw-worker.js"
    {| SwModule.enabled := Some true; SwModule.scope := None;
       SwModule.registrationStrategy := Some (SwModule.Named "registerWithDelay:5000") |}
  = ([SwModule.AddControllerChangeListener Z;
      SwModule.SubscribeOnce Z (SwModule.AfterDelay Z 5000) "ngsw-worker.js" None], Ok ()).
Proof.
  apply (proj2 (registerWithDelay_timeout Z (λ s, if String.eqb s "5000" then 5000 else 0)
                  (Z.eqb 0) 0 "ngsw-worker.js"
                  {| SwModule.enabled := Some true; SwModule.scope := None;
                     SwModule.registrationStrategy :=
                       Some (SwModule.Named "registerWithDelay:5000") |}
                  ltac:(done)) "5000" "" eq_refl).
  - intros H. apply indexOf_not_found in H; [done|reflexivity].
  - by left.
Defined.
